(** * Session and request layer of the portfolio front end

    A shallow embedding of the token utilities, the API client, the
    authentication hook, the route guard and the login flow of
    [src/frontend_ui/src/App.js], followed by the properties of the
    specification that concern them.

    JavaScript values are embedded as an inductive type, exceptions and the
    mutable browser state (localStorage, React state, the requests handed to
    [fetch], the calls of [window.location.replace]) through a state and
    error monad.  An [await] is a sequencing point of that monad: the model
    is sequential, and nothing else runs while a request is in flight.

    A [string] is a text in UTF-8, as a string literal is read: a character
    above U+00FF shows as a byte of 196 or more. *)

From Stdlib Require Import Ascii.
From stdpp Require Import base strings gmap pretty list option.

#[local] Open Scope string_scope.
#[local] Set Warnings "-register-all".

(** ** JavaScript values *)

(** JavaScript numbers are IEEE doubles.  The program never computes with
    the numbers of a payload: it only tests them for truthiness and renders
    them as text, so both operations are the interface of the number type. *)
Class JsNumber := {
  number : Type;
  (** false exactly for [+0], [-0] and [NaN] *)
  number_truthy : number → bool;
  (** [Number::toString] *)
  number_to_string : number → string;
}.

(** A rendering-only instance: the integers. *)
Definition Z_number : JsNumber :=
  {| number := Z;
     number_truthy := λ z, negb (z =? 0)%Z;
     number_to_string := pretty |}.

Section Program.
Context {Num : JsNumber}.

(** The values the program handles: [undefined], and what [res.json()] and
    [res.text()] produce.  An object is the list of its own properties. *)
Inductive JsValue :=
| JUndefined
| JNull
| JBool (b : bool)
| JNum (n : number)
| JStr (s : string)
| JArr (items : list JsValue)
| JObj (props : list (string * JsValue)).

(** Errors.  [ApiError] is the [Error] object that [apiRequest] builds and
    decorates with [status] and [data] (App.js:56-58); [NativeError] is an
    error raised by the platform, identified by its name. *)
Inductive JsError :=
| ApiError (message : string) (status : N) (data : JsValue)
| NativeError (name : string).

(** The completion of a call: a value is returned or an error is thrown
    (for an async function: the promise is fulfilled or rejected). *)
Inductive Result (A : Type) :=
| Return (a : A)
| Throw (e : JsError).
#[global] Arguments Return {A} a.
#[global] Arguments Throw {A} e.

Definition nonempty (s : string) : bool :=
  match s with "" => false | _ => true end.

(** [!!v] *)
Definition truthy (v : JsValue) : bool :=
  match v with
  | JUndefined | JNull => false
  | JBool b => b
  | JNum n => number_truthy n
  | JStr s => nonempty s
  | JArr _ | JObj _ => true
  end.

Fixpoint assoc (k : string) (props : list (string * JsValue)) : option JsValue :=
  match props with
  | [] => None
  | (k', v) :: rest => if String.eqb k' k then Some v else assoc k rest
  end.

(** [v.k] for a key [k] that no built-in prototype defines ([message],
    [token]): an own property of an object, [undefined] on anything else.
    Never evaluated on [null]: both uses are guarded by [data &&]. *)
Definition get_prop (v : JsValue) (k : string) : JsValue :=
  match v with
  | JObj props => default JUndefined (assoc k props)
  | _ => JUndefined
  end.

(** [a && b] *)
Definition js_and (a b : JsValue) : JsValue := if truthy a then b else a.

(** [a || b] *)
Definition js_or (a b : JsValue) : JsValue := if truthy a then a else b.

Definition join_with (sep : string) (parts : list string) : string :=
  match parts with
  | [] => ""
  | p :: rest => fold_left (λ acc q, acc +:+ sep +:+ q) rest p
  end.

(** The abstract operation [ToString], applied by [new Error(msg)] and by
    [localStorage.setItem(key, value)].  An array is joined with commas,
    [null] and [undefined] elements rendering as the empty string; a plain object is
    ["[object Object]"], unless an own property shadows [toString]: no own
    property of a parsed payload is callable, and the conversion then ends
    in a TypeError. *)
Fixpoint ToString (v : JsValue) : Result string :=
  match v with
  | JUndefined => Return "undefined"
  | JNull => Return "null"
  | JBool true => Return "true"
  | JBool false => Return "false"
  | JNum n => Return (number_to_string n)
  | JStr s => Return s
  | JArr items =>
      let fix elements (l : list JsValue) : Result (list string) :=
        match l with
        | [] => Return []
        | x :: rest =>
            match (match x with
                   | JUndefined | JNull => Return ""
                   | _ => ToString x
                   end) with
            | Throw e => Throw e
            | Return s =>
                match elements rest with
                | Throw e => Throw e
                | Return ss => Return (s :: ss)
                end
            end
        end in
      match elements items with
      | Throw e => Throw e
      | Return ss => Return (join_with "," ss)
      end
  | JObj props =>
      match assoc "toString" props with
      | Some _ => Throw (NativeError "TypeError")
      | None => Return "[object Object]"
      end
  end.


(** ** The platform: headers, requests, responses *)

Definition lower_ascii (c : ascii) : ascii :=
  let n := N_of_ascii c in
  if ((65 <=? n) && (n <=? 90))%N then ascii_of_N (n + 32) else c.

(** Byte-lowercasing: header names are matched case-insensitively. *)
Fixpoint lower (s : string) : string :=
  match s with
  | EmptyString => EmptyString
  | String c rest => String (lower_ascii c) (lower rest)
  end.

(** [haystack.includes(needle)] *)
Definition includes (haystack needle : string) : bool :=
  match String.index 0 needle haystack with
  | Some _ => true
  | None => false
  end.

(** HTTP whitespace: tab, line feed, carriage return, space. *)
Definition http_whitespace (c : ascii) : bool :=
  let n := N_of_ascii c in
  ((n =? 9) || (n =? 10) || (n =? 13) || (n =? 32))%N.

Fixpoint strip_leading (s : string) : string :=
  match s with
  | EmptyString => EmptyString
  | String c rest => if http_whitespace c then strip_leading rest else s
  end.

Fixpoint strip_trailing (s : string) : string :=
  match s with
  | EmptyString => EmptyString
  | String c rest =>
      match strip_trailing rest with
      | EmptyString =>
          if http_whitespace c then EmptyString else String c EmptyString
      | kept => String c kept
      end
  end.

(** The normalisation of a header value: leading and trailing HTTP
    whitespace goes. *)
Definition normalize (value : string) : string :=
  strip_trailing (strip_leading value).

Fixpoint all_chars (p : ascii → bool) (s : string) : bool :=
  match s with
  | EmptyString => true
  | String c rest => p c && all_chars p rest
  end.

(** A character of a header name: a letter, a digit, or one of
    [!#$%&'*+-.^_`|~]. *)
Definition token_char (c : ascii) : bool :=
  let n := N_of_ascii c in
  (((48 <=? n) && (n <=? 57)) || ((65 <=? n) && (n <=? 90))
   || ((97 <=? n) && (n <=? 122))
   || (n =? 33) || ((35 <=? n) && (n <=? 39)) || (n =? 42) || (n =? 43)
   || (n =? 45) || (n =? 46) || (n =? 94) || (n =? 95) || (n =? 96)
   || (n =? 124) || (n =? 126))%N.

(** What the platform accepts as a header name. *)
Definition valid_name (name : string) : bool :=
  nonempty name && all_chars token_char name.

(** What the platform accepts as a (normalised) header value: no NUL, no
    line feed, no carriage return, and no character above U+00FF. *)
Definition value_char (c : ascii) : bool :=
  let n := N_of_ascii c in
  (negb (n =? 0) && negb (n =? 10) && negb (n =? 13) && (n <? 196))%N.

Definition valid_value (value : string) : bool := all_chars value_char value.

(** A [Headers] object: its header list, names kept in lower case, values
    normalised. *)
Definition Headers : Type := list (string * string).

Definition named (name : string) (e : string * string) : bool :=
  String.eqb e.1 name.

Definition Headers_has (h : Headers) (name : string) : bool :=
  existsb (named (lower name)) h.

(** [h.get(name)]: the values under [name], combined; [null] without any. *)
Definition Headers_get (h : Headers) (name : string) : option string :=
  match List.filter (named (lower name)) h with
  | [] => None
  | es => Some (join_with ", " (map snd es))
  end.

Definition Headers_append (h : Headers) (name value : string) : Headers :=
  (h ++ [(lower name, value)])%list.

(** The first header of that name takes the value, the others go. *)
Fixpoint Headers_replace (name value : string) (h : Headers) : Headers :=
  match h with
  | [] => []
  | e :: rest =>
      if named name e
      then (e.1, value) :: List.filter (λ e', negb (named name e')) rest
      else e :: Headers_replace name value rest
  end.

(** [h.set(name, value)]: the value is normalised; a name or a value that
    the platform does not accept is a TypeError, and [h] stays as it is. *)
Definition Headers_set (h : Headers) (name value : string) : Result Headers :=
  if valid_name name && valid_value (normalize value)
  then Return (if Headers_has h name
               then Headers_replace (lower name) (normalize value) h
               else Headers_append h name (normalize value))
  else Throw (NativeError "TypeError").

(** An entry of the headers a descriptor brings: a name and a value that
    the platform accepts.  A descriptor with an entry on which
    [new Headers] would throw is not a value of this type. *)
Record HeaderEntry := {
  entry_name : string;
  entry_value : string;
  entry_ok : valid_name entry_name && valid_value (normalize entry_value) = true;
}.

(** [new Headers(init)] *)
Definition Headers_new (init : list HeaderEntry) : Headers :=
  fold_left (λ h e, Headers_append h (entry_name e) (normalize (entry_value e)))
    init [].

(** The [options] argument of [apiRequest]; an absent field is [undefined]. *)
Record RequestInit := {
  method : option string;
  body : option string;
  headers : option (list HeaderEntry);
}.

(** What [fetch] is handed: the URL and [{...options, headers}]. *)
Record Request := {
  url : string;
  request_method : option string;
  request_body : option string;
  request_headers : Headers;
}.

(** A response, as far as [apiRequest] reads it: [json] and [text] hold the
    completion of [res.json()] and [res.text()]. *)
Record Response := {
  status : N;
  response_headers : Headers;
  json : Result JsValue;
  text : Result string;
}.

(** [res.ok]: the status is in the range 200-299. *)
Definition ok (res : Response) : bool :=
  ((200 <=? status res) && (status res <=? 299))%N.

(** What the program is run with: the build-time configuration, the network
    behind [fetch] (a rejection is a thrown error), and [JSON.stringify]. *)
Record Env := {
  REACT_APP_API_BASE_URL : option string;
  network : Request → Result Response;
  JSON_stringify : JsValue → string;
}.

(** The completion of [await fetch(url, init)], by the completion of the
    statements that build its arguments: an error thrown while the headers
    are built is the completion, and [fetch] is not called; a request that
    was built goes to the network. *)
Definition fetch (env : Env) (request : Result Request) : Result Response :=
  match request with
  | Return req => network env req
  | Throw e => Throw e
  end.

(** ** The mutable state and the monad of effects *)

(** [localStorage] is [None] when the global is missing or inaccessible:
    evaluating it throws, a SecurityError when [blocked] (the user agent
    denies access to the store) and a ReferenceError otherwise (there is no
    such global).  [accepts] tells which contents the user agent can hold:
    it is false where the quota would be exceeded.  [tok] is the React
    state cell of [useAuth]; [fetched] lists the requests handed to
    [fetch], oldest first; [replaced] lists the arguments of
    [window.location.replace]. *)
Record World := {
  localStorage : option (gmap string string);
  blocked : bool;
  accepts : gmap string string → bool;
  tok : JsValue;
  fetched : list Request;
  replaced : list string;
}.

Definition M (A : Type) : Type := World → Result A * World.

Definition ret {A} (a : A) : M A := λ w, (Return a, w).

Definition throw {A} (e : JsError) : M A := λ w, (Throw e, w).

Definition lift {A} (r : Result A) : M A := λ w, (r, w).

Definition bind {A B} (m : M A) (k : A → M B) : M B :=
  λ w, match m w with
       | (Return a, w') => k a w'
       | (Throw e, w') => (Throw e, w')
       end.

(** [try { m } catch (err) { handler err }] *)
Definition try_catch {A} (m : M A) (handler : JsError → M A) : M A :=
  λ w, match m w with
       | (Return a, w') => (Return a, w')
       | (Throw e, w') => handler e w'
       end.

#[local] Notation "'let*' x ':=' m 'in' k" := (bind m (λ x, k))
  (at level 10, x name, m at level 100, k at level 200).
#[local] Notation "m ';;' k" := (bind m (λ _, k))
  (at level 100, k at level 200, right associativity).

(** What evaluating [localStorage] throws when there is none. *)
Definition storage_error (w : World) : JsError :=
  NativeError (if blocked w then "SecurityError" else "ReferenceError").

(** Evaluating the identifier [localStorage]. *)
Definition the_localStorage : M (gmap string string) :=
  λ w, match localStorage w with
       | Some items => (Return items, w)
       | None => (Throw (storage_error w), w)
       end.

Definition put_localStorage (items : gmap string string) : M unit :=
  λ w, (Return (), {| localStorage := Some items; blocked := blocked w;
                      accepts := accepts w; tok := tok w;
                      fetched := fetched w; replaced := replaced w |}).

(** Whether [setItem(key, s)] can be carried out on a store that holds
    [items]: writing the value that the entry already has changes nothing
    and always can; any other write can when the user agent can hold the
    new content. *)
Definition can_store (w : World) (items : gmap string string)
    (key s : string) : bool :=
  match items !! key with
  | Some old => String.eqb old s || accepts w (<[key := s]> items)
  | None => accepts w (<[key := s]> items)
  end.

(** The check that [setItem] makes, in the world at hand. *)
Definition within_quota (items : gmap string string) (key s : string) : M bool :=
  λ w, (Return (can_store w items key s), w).

(** [localStorage.getItem(key)]: the value, or [null]. *)
Definition localStorage_getItem (key : string) : M (option string) :=
  let* items := the_localStorage in
  ret (items !! key).

(** [localStorage.setItem(key, value)]: the value is converted to a
    string; when it cannot be stored, a QuotaExceededError is thrown and
    the store stays as it is. *)
Definition localStorage_setItem (key : string) (value : JsValue) : M unit :=
  let* items := the_localStorage in
  let* s := lift (ToString value) in
  let* fits := within_quota items key s in
  if fits : bool then put_localStorage (<[key := s]> items)
  else throw (NativeError "QuotaExceededError").

(** [localStorage.removeItem(key)] *)
Definition localStorage_removeItem (key : string) : M unit :=
  let* items := the_localStorage in
  put_localStorage (delete key items).

(** The world once [req] has been handed to [fetch]. *)
Definition after_fetch (req : Request) (w : World) : World :=
  {| localStorage := localStorage w; blocked := blocked w;
     accepts := accepts w; tok := tok w;
     fetched := (fetched w ++ [req])%list; replaced := replaced w |}.

(** The world after the statements that build the request and call
    [fetch]: a request that was built has been handed to [fetch]; when
    building it threw, nothing has. *)
Definition after_request (request : Result Request) (w : World) : World :=
  match request with
  | Return req => after_fetch req w
  | Throw _ => w
  end.

(** Building the request, then [fetch(url, init)]. *)
Definition do_fetch (env : Env) (request : Result Request) : M Response :=
  λ w, (fetch env request, after_request request w).

(** [setTok(v)], the setter of the React state of [useAuth]. *)
Definition setTok (v : JsValue) : M unit :=
  λ w, (Return (), {| localStorage := localStorage w; blocked := blocked w;
                      accepts := accepts w; tok := v;
                      fetched := fetched w; replaced := replaced w |}).

(** [window.location.replace(target)] *)
Definition window_location_replace (target : string) : M unit :=
  λ w, (Return (), {| localStorage := localStorage w; blocked := blocked w;
                      accepts := accepts w; tok := tok w;
                      fetched := fetched w;
                      replaced := (replaced w ++ [target])%list |}).

(** ** Token utilities (App.js:8-26) *)

Definition TOKEN_KEY : string := "auth_token".

Definition getToken : M (option string) := localStorage_getItem TOKEN_KEY.

Definition setToken (token : JsValue) : M unit :=
  localStorage_setItem TOKEN_KEY token.

Definition clearToken : M unit := localStorage_removeItem TOKEN_KEY.

(** ** The API client (App.js:32-62) *)

(** Truthiness of what [getToken] returns: a string or [null]. *)
Definition token_truthy (token : option string) : bool :=
  match token with
  | Some t => nonempty t
  | None => false
  end.

(** [s || ''] for a string or [undefined]. *)
Definition or_empty (s : option string) : string :=
  match s with
  | Some s => if nonempty s then s else ""
  | None => ""
  end.

(** Sequencing of completions. *)
Definition and_then {A B} (r : Result A) (k : A → Result B) : Result B :=
  match r with
  | Return a => k a
  | Throw e => Throw e
  end.

(** App.js:37-47: the request handed to [fetch], given the token read, or
    the error thrown while its headers are built. *)
Definition apiRequest_request (env : Env) (token : option string)
    (path : string) (options : RequestInit) : Result Request :=
  let base := or_empty (REACT_APP_API_BASE_URL env) in
  let headers := Headers_new (default [] (headers options)) in
  and_then (Headers_set headers "Content-Type" "application/json") (λ headers,
  and_then
    (match token with
     | Some t =>
         if token_truthy token
         then Headers_set headers "Authorization" ("Bearer " +:+ t)
         else Return headers
     | None => Return headers
     end) (λ headers,
  Return {| url := base +:+ path;
            request_method := method options;
            request_body := body options;
            request_headers := headers |})).

(** App.js:48-54: the body, parsed as JSON or taken as text. *)
Definition response_data (res : Response) : Result JsValue :=
  let contentType :=
    or_empty (Headers_get (response_headers res) "content-type") in
  if includes contentType "application/json"
  then json res
  else match text res with
       | Return t => Return (JStr t)
       | Throw e => Throw e
       end.

Definition apiRequest (env : Env) (path : string) (options : RequestInit)
  : M JsValue :=
  let* token := getToken in
  let* res := do_fetch env (apiRequest_request env token path options) in
  let* data := lift (response_data res) in
  if negb (ok res) then
    let* message :=
      lift (ToString (js_or (js_and data (get_prop data "message"))
                            (JStr ("Request failed " +:+ pretty (status res))))) in
    throw (ApiError message (status res) data)
  else ret data.

(** The default [options = {}]. *)
Definition no_options : RequestInit :=
  {| method := None; body := None; headers := None |}.

(** ** Authentication (App.js:254-271) *)

(** The body of the login request: [{ email, password }]. *)
Definition credentials (email password : string) : JsValue :=
  JObj [("email", JStr email); ("password", JStr password)].

(** The options of the login request (App.js:258). *)
Definition login_options (env : Env) (email password : string) : RequestInit :=
  {| method := Some "POST";
     body := Some (JSON_stringify env (credentials email password));
     headers := None |}.

(** The request [login] sends, given the token read. *)
Definition login_request (env : Env) (token : option string)
    (email password : string) : Result Request :=
  apiRequest_request env token "/auth/login" (login_options env email password).

Definition login (env : Env) (email password : string) : M bool :=
  let* data := apiRequest env "/auth/login" (login_options env email password) in
  if truthy (js_and data (get_prop data "token")) then
    setToken (get_prop data "token");;
    setTok (get_prop data "token");;
    ret true
  else ret false.

Definition logout : M unit :=
  clearToken;;
  setTok JNull.

(** ** The route guard (App.js:273-280) *)

(** A location of the router.  Its pathname begins with a slash, as the
    router's [Location] type has it: [path] is what follows the slash.
    [state] is [null] or an object that may hold the location a guard
    redirected from. *)
Inductive Location :=
| Loc (path search hash : string) (state : option NavState)
with NavState :=
| State (from : option Location).

Definition pathname (l : Location) : string :=
  match l with Loc p _ _ _ => "/" +:+ p end.

Definition state (l : Location) : option NavState :=
  match l with Loc _ _ _ s => s end.

Definition from (s : NavState) : option Location :=
  match s with State f => f end.

(** What a guard renders: its children, or a [<Navigate>] element. *)
Inductive Element (A : Type) :=
| Children (children : A)
| Navigate (to : string) (replace : bool) (nav_state : NavState).
#[global] Arguments Children {A} children.
#[global] Arguments Navigate {A} to replace nav_state.

Definition RequireAuth {A} (children : A) (location : Location)
  : M (Element A) :=
  let* token := getToken in
  if negb (token_truthy token) then
    ret (Navigate "/login" true (State (Some location)))
  else ret (Children children).

Definition after_slash (s : string) : string :=
  match s with
  | String "/" rest => rest
  | _ => s
  end.

(** Where the router stands once it has rendered [<Navigate to state>],
    for an absolute [to]. *)
Definition navigated (to : string) (nav_state : NavState) : Location :=
  Loc (after_slash to) "" "" (Some nav_state).

(** ** The login page (App.js:282-307) *)

(** [location.state?.from?.pathname || '/admin'] *)
Definition LoginPage_from (location : Location) : string :=
  match state location with
  | Some s =>
      match from s with
      | Some l => if nonempty (pathname l) then pathname l else "/admin"
      | None => "/admin"
      end
  | None => "/admin"
  end.

(** The React state of the login page. *)
Record LoginPageState := {
  form_email : string;
  form_password : string;
  page_status : string;
  page_error : string;
}.

Definition onSubmit (env : Env) (location : Location) (st : LoginPageState)
  : M LoginPageState :=
  let submitting :=
    {| form_email := form_email st; form_password := form_password st;
       page_status := "submitting"; page_error := "" |} in
  let failed (error : string) :=
    {| form_email := form_email st; form_password := form_password st;
       page_status := "idle"; page_error := error |} in
  try_catch
    (let* ok := login env (form_email st) (form_password st) in
     if ok : bool then
       window_location_replace (LoginPage_from location);;
       ret submitting
     else ret (failed "Invalid credentials"))
    (λ err, ret (failed "Login failed")).

(** [localStorage.getItem(key)] as an observation of the world: [None]
    also when there is no localStorage. *)
Definition item (w : World) (key : string) : option string :=
  match localStorage w with
  | Some items => items !! key
  | None => None
  end.

(** ** The contact form (App.js:212-229) *)

(** The form object [{ name, email, message }] and the React state of the
    section. *)
Record ContactForm := {
  contact_name : string;
  contact_email : string;
  contact_message : string;
}.

Record ContactState := {
  contact_status : string;
  contact_form : ContactForm;
}.

(** The inputs that [onChange] is attached to, by their [name] attribute. *)
Variant ContactField := name_field | email_field | message_field.

Definition empty_contact : ContactForm :=
  {| contact_name := ""; contact_email := ""; contact_message := "" |}.

(** [useState('idle')], [useState({ name: '', email: '', message: '' })] *)
Definition ContactSection_initial : ContactState :=
  {| contact_status := "idle"; contact_form := empty_contact |}.

(** [setForm({ ...form, [e.target.name]: e.target.value })] *)
Definition ContactSection_onChange (field : ContactField) (value : string)
    (st : ContactState) : ContactState :=
  let form := contact_form st in
  {| contact_status := contact_status st;
     contact_form :=
       match field with
       | name_field =>
           {| contact_name := value; contact_email := contact_email form;
              contact_message := contact_message form |}
       | email_field =>
           {| contact_name := contact_name form; contact_email := value;
              contact_message := contact_message form |}
       | message_field =>
           {| contact_name := contact_name form; contact_email := contact_email form;
              contact_message := value |}
       end |}.

(** The form as the value handed to [JSON.stringify]. *)
Definition contact_payload (form : ContactForm) : JsValue :=
  JObj [("name", JStr (contact_name form));
        ("email", JStr (contact_email form));
        ("message", JStr (contact_message form))].

Definition contact_options (env : Env) (form : ContactForm) : RequestInit :=
  {| method := Some "POST";
     body := Some (JSON_stringify env (contact_payload form));
     headers := None |}.

Definition ContactSection_onSubmit (env : Env) (st : ContactState)
  : M ContactState :=
  try_catch
    (apiRequest env "/contact" (contact_options env (contact_form st));;
     ret {| contact_status := "success"; contact_form := empty_contact |})
    (λ err, ret {| contact_status := "error"; contact_form := contact_form st |}).

(** [disabled={status === 'submitting'}] *)
Definition submit_disabled (status : string) : bool :=
  String.eqb status "submitting".

(** ** The admin page (App.js:326-344) *)

(** The React state of the page: the notice typed, the saving flag, and
    the status, which holds whatever [setStatus] was given. *)
Record AdminState := {
  admin_message : string;
  admin_saving : bool;
  admin_status : JsValue;
}.

Definition notice_options (env : Env) (message : string) : RequestInit :=
  {| method := Some "POST";
     body := Some (JSON_stringify env (JObj [("message", JStr message)]));
     headers := None |}.

(** [v?.k] *)
Definition optional_prop (v : JsValue) (k : string) : JsValue :=
  match v with
  | JUndefined | JNull => JUndefined
  | _ => get_prop v k
  end.

Definition save (env : Env) (st : AdminState) : M AdminState :=
  let* status :=
    try_catch
      (let* res := apiRequest env "/admin/notice"
                     (notice_options env (admin_message st)) in
       ret (js_or (optional_prop res "status") (JStr "Saved!")))
      (λ e, ret (JStr "Failed")) in
  (* finally *)
  ret {| admin_message := admin_message st; admin_saving := false;
         admin_status := status |}.

(** ** The theme (App.js:109-117, 380-384) *)

(** [useState('light')] *)
Definition initial_theme : string := "light".

Definition toggleTheme (t : string) : string :=
  if String.eqb t "light" then "dark" else "light".

(** [aria-pressed={theme === 'dark'}] *)
Definition Header_aria_pressed (theme : string) : bool :=
  String.eqb theme "dark".

(** The [aria-label] of the toggle. *)
Definition Header_aria_label (theme : string) : string :=
  "Switch to " +:+ (if String.eqb theme "light" then "dark" else "light")
  +:+ " mode".

(** ** Reveal on scroll (App.js:67-91) *)

(** DOM nodes are numbered.  [classList] gives the classes of each node,
    [observed] the targets of the observer the hook created. *)
Record RevealState := {
  classList : gmap nat (gset string);
  observed : gset nat;
}.

Definition classes (s : RevealState) (node : nat) : gset string :=
  default ∅ (classList s !! node).

(** [node.classList.add(c)] *)
Definition classList_add (node : nat) (c : string) (s : RevealState)
  : RevealState :=
  {| classList := <[node := {[ c ]} ∪ classes s node]> (classList s);
     observed := observed s |}.

(** [obs.observe(node)], [obs.unobserve(node)], [obs.disconnect()] *)
Definition observe (node : nat) (s : RevealState) : RevealState :=
  {| classList := classList s; observed := {[ node ]} ∪ observed s |}.

Definition unobserve (node : nat) (s : RevealState) : RevealState :=
  {| classList := classList s; observed := observed s ∖ {[ node ]} |}.

Definition disconnect (s : RevealState) : RevealState :=
  {| classList := classList s; observed := ∅ |}.

Record Entry := {
  isIntersecting : bool;
  target : nat;
}.

(** The body of the callback, for one entry (App.js:79-82). *)
Definition reveal_step (s : RevealState) (e : Entry) : RevealState :=
  if isIntersecting e
  then unobserve (target e) (classList_add (target e) "visible" s)
  else s.

(** The callback of the observer: [entries.forEach(...)] (App.js:77-84). *)
Definition reveal_callback (entries : list Entry) (s : RevealState)
  : RevealState :=
  fold_left reveal_step entries s.

(** The effect of the hook (App.js:69-89), by [ref.current] and by whether
    [(prefers-reduced-motion: reduce)] matches. *)
Definition useReveal_effect (node : option nat) (reduced_motion : bool)
    (s : RevealState) : RevealState :=
  match node with
  | None => s
  | Some node =>
      if reduced_motion then classList_add node "visible" s
      else observe node s
  end.

(** ** Sample runs *)

(** A browser with the given content of localStorage, and one without
    localStorage. *)
Definition browser (items : gmap string string) : World :=
  {| localStorage := Some items; blocked := false; accepts := λ _, true;
     tok := JNull; fetched := []; replaced := [] |}.

Definition no_storage : World :=
  {| localStorage := None; blocked := false; accepts := λ _, true;
     tok := JNull; fetched := []; replaced := [] |}.

(** A browser that denies access to the store. *)
Definition blocked_storage : World :=
  {| localStorage := None; blocked := true; accepts := λ _, true;
     tok := JNull; fetched := []; replaced := [] |}.

(** A browser whose store holds at most [quota] characters, keys and
    values counted; a quota of 0 is a store that takes nothing. *)
Definition stored_size (items : gmap string string) : nat :=
  map_fold (λ key value n, (String.length key + String.length value + n)%nat)
    0%nat items.

Definition limited_browser (quota : nat) (items : gmap string string) : World :=
  {| localStorage := Some items; blocked := false;
     accepts := λ items', (stored_size items' <=? quota)%nat;
     tok := JNull; fetched := []; replaced := [] |}.

Definition quote : string := String (ascii_of_nat 34) EmptyString.

(** A server that answers every request with [res]; bodies are rendered by
    listing the string properties of an object, which is all the sample
    runs send. *)
Definition render_props (v : JsValue) : string :=
  match v with
  | JObj props =>
      "{" +:+ join_with ","
        (map (λ p, quote +:+ p.1 +:+ quote +:+ ":" +:+
                   match p.2 with
                   | JStr s => quote +:+ s +:+ quote
                   | _ => "null"
                   end) props) +:+ "}"
  | _ => "null"
  end.

Definition server (res : Response) : Env :=
  {| REACT_APP_API_BASE_URL := None;
     network := λ _, Return res;
     JSON_stringify := render_props |}.

Definition json_response (code : N) (payload : Result JsValue) : Response :=
  {| status := code;
     response_headers := [("content-type", "application/json")];
     json := payload;
     text := Return "" |}.

Definition login_form : LoginPageState :=
  {| form_email := "ada@example.org"; form_password := "secret";
     page_status := "idle"; page_error := "" |}.

(** The answers of a backend to the login request: the token, a refusal,
    a refusal with an empty message, and a gateway error whose body is not
    the JSON its content type announces. *)
Definition granted : Response :=
  json_response 200 (Return (JObj [("token", JStr "abc")])).

Definition declined : Response :=
  json_response 401 (Return (JObj [("message", JStr "Bad credentials")])).

Definition declined_blank : Response :=
  json_response 400 (Return (JObj [("message", JStr "")])).

Definition bad_gateway : Response :=
  json_response 502 (Throw (NativeError "SyntaxError")).

(** A refusal whose [message] is an object with a [toString] of its own. *)
Definition declined_object : Response :=
  json_response 400 (Return (JObj [("message", JObj [("toString", JNull)])])).


(** The content of localStorage: a credential, and the empty credential. *)
Definition stored (c : string) : gmap string string := {[ TOKEN_KEY := c ]}.


(** The pages of the router. *)
Variant Page := LandingPage | LoginPage | AdminPage.

Definition admin_location : Location := Loc "admin" "" "" None.


(** A token that is an empty array; a body sent as plain text; an empty
    JSON object; a form that has been filled in. *)
Definition granted_array : Response :=
  json_response 200 (Return (JObj [("token", JArr [])])).

Definition plain_text : Response :=
  {| status := 200;
     response_headers := [("content-type", "text/plain")];
     json := Throw (NativeError "SyntaxError");
     text := Return "token=abc" |}.

Definition accepted : Response := json_response 200 (Return (JObj [])).

Definition typed_contact : ContactState :=
  {| contact_status := "idle";
     contact_form := {| contact_name := "A"; contact_email := "a@x.com";
                        contact_message := "hi" |} |}.

(** A page where node 1 and node 2 are observed, and a batch in which
    only node 1 intersects. *)
Definition observing : RevealState :=
  {| classList := {[ 1 := {[ "section" ]} ]}; observed := {[ 1; 2 ]} |}.

Definition scrolled : list Entry :=
  [ {| isIntersecting := true; target := 1 |};
    {| isIntersecting := false; target := 2 |} ].

End Program.

#[global] Arguments JsValue {Num}.
#[global] Arguments JsError {Num}.
#[global] Arguments Result {Num} A.
#[global] Arguments Response {Num}.
#[global] Arguments Env {Num}.
#[global] Arguments World {Num}.

(** Unfolds the effects down to functions on the world. *)
Ltac run :=
  unfold getToken, setToken, clearToken, localStorage_getItem,
    localStorage_setItem, localStorage_removeItem, the_localStorage,
    put_localStorage, within_quota, do_fetch, setTok, window_location_replace,
    bind, ret, throw, lift, try_catch in *.

(** * Properties *)

Section Properties.
Context {Num : JsNumber}.

(** ** Headers *)

Lemma filter_named_excluded (k : string) (h : Headers) :
  List.filter (named k) (List.filter (λ e, negb (named k e)) h) = [].
Proof.
  induction h as [|e h IH]; simpl; [done|].
  destruct (named k e) eqn:E; simpl; [done|]. by rewrite E.
Qed.

Lemma filter_named_other (k k' : string) (h : Headers) :
  k ≠ k' →
  List.filter (named k') (List.filter (λ e, negb (named k e)) h)
  = List.filter (named k') h.
Proof.
  intros Hne. induction h as [|e h IH]; simpl; [done|].
  destruct (named k e) eqn:E; simpl.
  - destruct (named k' e) eqn:E'; [|done].
    unfold named in E, E'. apply String.eqb_eq in E, E'. congruence.
  - destruct (named k' e); by rewrite IH.
Qed.

Lemma filter_named_absent (k : string) (h : Headers) :
  existsb (named k) h = false → List.filter (named k) h = [].
Proof.
  induction h as [|e h IH]; simpl; [done|].
  destruct (named k e); simpl; [done | exact IH].
Qed.

Lemma filter_named_replace_eq (k v : string) (h : Headers) :
  existsb (named k) h = true →
  List.filter (named k) (Headers_replace k v h) = [(k, v)].
Proof.
  induction h as [|e h IH]; simpl; [done|].
  destruct (named k e) eqn:E; simpl.
  - intros _. change (named k (e.1, v)) with (named k e). rewrite E.
    rewrite (filter_named_excluded k h).
    apply String.eqb_eq in E. simpl in E. by rewrite E.
  - intros Hex. rewrite E. by apply IH.
Qed.

Lemma filter_named_replace_ne (k k' v : string) (h : Headers) :
  k ≠ k' →
  List.filter (named k') (Headers_replace k v h) = List.filter (named k') h.
Proof.
  intros Hne. induction h as [|e h IH]; simpl; [done|].
  destruct (named k e) eqn:E; simpl.
  - assert (named k' e = false) as E'.
    { unfold named in *. apply String.eqb_eq in E. apply String.eqb_neq. congruence. }
    assert (named k' (e.1, v) = false) as E'' by exact E'.
    rewrite E', E''. by apply filter_named_other.
  - destruct (named k' e); by rewrite IH.
Qed.

Lemma filter_named_append (k k' v : string) (h : Headers) :
  List.filter (named k') (h ++ [(k, v)])%list
  = (List.filter (named k') h ++ if String.eqb k k' then [(k, v)] else [])%list.
Proof.
  rewrite List.filter_app. simpl. unfold named at 2. simpl. by destruct (String.eqb k k').
Qed.

(** What [Headers_set] does, by whether the platform accepts the header. *)
Lemma Headers_set_accepted (h : Headers) (name value : string) :
  valid_name name && valid_value (normalize value) = true →
  Headers_set h name value
  = Return (if Headers_has h name
            then Headers_replace (lower name) (normalize value) h
            else Headers_append h name (normalize value)).
Proof. intros Hok. unfold Headers_set. by rewrite Hok. Qed.

Lemma Headers_set_refused (h : Headers) (name value : string) :
  valid_name name && valid_value (normalize value) = false →
  Headers_set h name value = Throw (NativeError "TypeError").
Proof. intros Hok. unfold Headers_set. by rewrite Hok. Qed.

(** Reading back the header that was just set. *)
Lemma Headers_get_set_eq (h h' : Headers) (name value : string) :
  Headers_set h name value = Return h' →
  Headers_get h' name = Some (normalize value).
Proof.
  unfold Headers_set. destruct (valid_name name && valid_value (normalize value));
    [|done].
  intros [= <-]. unfold Headers_get, Headers_has.
  destruct (existsb (named (lower name)) h) eqn:E.
  - by rewrite filter_named_replace_eq.
  - unfold Headers_append. rewrite filter_named_append, String.eqb_refl.
    by rewrite (filter_named_absent _ _ E).
Qed.

(** Setting one header leaves the headers of other names as they were. *)
Lemma Headers_get_set_ne (h h' : Headers) (name name' value : string) :
  Headers_set h name value = Return h' →
  lower name ≠ lower name' →
  Headers_get h' name' = Headers_get h name'.
Proof.
  unfold Headers_set. destruct (valid_name name && valid_value (normalize value));
    [|done].
  intros [= <-] Hne. unfold Headers_get, Headers_has.
  destruct (existsb (named (lower name)) h).
  - by rewrite filter_named_replace_ne.
  - unfold Headers_append. rewrite filter_named_append.
    apply String.eqb_neq in Hne. rewrite Hne. by rewrite app_nil_r.
Qed.

Lemma Headers_has_get (h : Headers) (name : string) :
  Headers_has h name = false ↔ Headers_get h name = None.
Proof.
  unfold Headers_has, Headers_get. split.
  - intros E. by rewrite (filter_named_absent _ _ E).
  - induction h as [|e h IH]; simpl; [done|].
    destruct (named (lower name) e); simpl; [done | exact IH].
Qed.

(** ** Header values *)

Lemma strip_trailing_append (p c : string) :
  strip_trailing c ≠ "" →
  strip_trailing (p +:+ c) = p +:+ strip_trailing c.
Proof.
  intros Hc. induction p as [|a p IH]; [done|].
  change (String a p +:+ c) with (String a (p +:+ c)).
  change (String a p +:+ strip_trailing c) with (String a (p +:+ strip_trailing c)).
  simpl. rewrite IH.
  destruct (p +:+ strip_trailing c) eqn:E; [|done].
  destruct p; [by simpl in E | done].
Qed.

Lemma all_chars_append (f : ascii → bool) (p c : string) :
  all_chars f (p +:+ c) = all_chars f p && all_chars f c.
Proof.
  induction p as [|a p IH]; [done|].
  change (String a p +:+ c) with (String a (p +:+ c)). simpl.
  rewrite IH. by destruct (f a).
Qed.

(** A credential without trailing whitespace goes into the header as it is. *)
Lemma bearer_unchanged (c : string) :
  c ≠ "" → strip_trailing c = c →
  normalize ("Bearer " +:+ c) = "Bearer " +:+ c.
Proof.
  intros Hne Hc. unfold normalize.
  change (strip_leading ("Bearer " +:+ c)) with ("Bearer " +:+ c).
  rewrite strip_trailing_append by (by rewrite Hc). by rewrite Hc.
Qed.

Lemma bearer_valid (c : string) :
  valid_value ("Bearer " +:+ c) = valid_value c.
Proof. unfold valid_value. by rewrite all_chars_append. Qed.

(** ** Running the effects *)

Lemma getToken_available (w : World) (items : gmap string string) :
  localStorage w = Some items → getToken w = (Return (items !! TOKEN_KEY), w).
Proof. intros H. run. by rewrite H. Qed.

Lemma getToken_no_storage (w : World) :
  localStorage w = None → getToken w = (Throw (storage_error w), w).
Proof. intros H. run. by rewrite H. Qed.

(** What [apiRequest] does once the token has been read: the request is
    built and goes out, and the completion follows the response. *)
Lemma apiRequest_run (env : Env) (path : string) (options : RequestInit)
    (w : World) (items : gmap string string) :
  localStorage w = Some items →
  let req := apiRequest_request env (items !! TOKEN_KEY) path options in
  apiRequest env path options w =
    (match fetch env req with
     | Throw e => Throw e
     | Return res =>
         match response_data res with
         | Throw e => Throw e
         | Return data =>
             if negb (ok res) then
               match ToString
                       (js_or (js_and data (get_prop data "message"))
                              (JStr ("Request failed " +:+ pretty (status res))))
               with
               | Return m => Throw (ApiError m (status res) data)
               | Throw e => Throw e
               end
             else Return data
         end
     end, after_request req w).
Proof.
  intros H req. unfold apiRequest. run. rewrite H. fold req.
  destruct (fetch env req) as [res|e]; [|done].
  destruct (response_data res) as [data|e]; [|done].
  destruct (negb (ok res)); [|done].
  by destruct (ToString _).
Qed.

Lemma apiRequest_no_storage (env : Env) (path : string) (options : RequestInit)
    (w : World) :
  localStorage w = None →
  apiRequest env path options w = (Throw (storage_error w), w).
Proof. intros H. unfold apiRequest. run. by rewrite H. Qed.

Lemma after_request_frame (request : Result Request) (w : World) :
  localStorage (after_request request w) = localStorage w
  ∧ blocked (after_request request w) = blocked w
  ∧ accepts (after_request request w) = accepts w
  ∧ tok (after_request request w) = tok w
  ∧ replaced (after_request request w) = replaced w.
Proof. by destruct request. Qed.

(** [apiRequest] changes the world by one more request in [fetched], if at all. *)
Lemma apiRequest_frame (env : Env) (path : string) (options : RequestInit)
    (w : World) :
  localStorage (apiRequest env path options w).2 = localStorage w
  ∧ tok (apiRequest env path options w).2 = tok w
  ∧ replaced (apiRequest env path options w).2 = replaced w.
Proof.
  destruct (localStorage w) as [items|] eqn:H.
  - rewrite (apiRequest_run _ _ _ _ _ H). simpl.
    by destruct (after_request_frame
                   (apiRequest_request env (items !! TOKEN_KEY) path options) w)
      as (-> & _ & _ & -> & ->).
  - rewrite (apiRequest_no_storage _ _ _ _ H). simpl. by rewrite H.
Qed.

(** The store's quota and access are no concern of [apiRequest]. *)
Lemma apiRequest_platform (env : Env) (path : string) (options : RequestInit)
    (w : World) :
  blocked (apiRequest env path options w).2 = blocked w
  ∧ accepts (apiRequest env path options w).2 = accepts w.
Proof.
  destruct (localStorage w) as [items|] eqn:H.
  - rewrite (apiRequest_run _ _ _ _ _ H). simpl.
    by destruct (after_request_frame
                   (apiRequest_request env (items !! TOKEN_KEY) path options) w)
      as (_ & -> & -> & _).
  - by rewrite (apiRequest_no_storage _ _ _ _ H).
Qed.

(** ** The token store *)

(** The quota is the user agent's: a world with the same one stores the
    same. *)
Lemma can_store_frame (w w1 : World) (items : gmap string string)
    (key s : string) :
  accepts w1 = accepts w →
  can_store w1 items key s = can_store w items key s.
Proof. unfold can_store. by intros ->. Qed.

(** [setToken], case by case. *)
Lemma setToken_run (v : JsValue) (w : World) :
  setToken v w =
    match localStorage w with
    | None => (Throw (storage_error w), w)
    | Some items =>
        match ToString v with
        | Throw e => (Throw e, w)
        | Return s =>
            if can_store w items TOKEN_KEY s
            then (Return (), (put_localStorage (<[TOKEN_KEY := s]> items) w).2)
            else (Throw (NativeError "QuotaExceededError"), w)
        end
    end.
Proof.
  run. destruct (localStorage w) as [items|]; [|done].
  destruct (ToString v) as [s|e]; [|done]. simpl.
  by destruct (can_store w items TOKEN_KEY s).
Qed.

(** A [setToken] that throws leaves the world as it was. *)
Lemma setToken_thrown (v : JsValue) (w : World) (e : JsError) :
  (setToken v w).1 = Throw e → (setToken v w).2 = w.
Proof.
  rewrite setToken_run. destruct (localStorage w) as [items|]; [|done].
  destruct (ToString v) as [s|e']; [|done].
  by destruct (can_store w items TOKEN_KEY s).
Qed.

(** C7, amended: for every credential [c] that the store can take,
    [setToken c] followed by [getToken] returns [c], whatever was stored
    before: the entry holds [c] alone, and a value set in between leaves
    no trace.  For a [c] that the store cannot take, [setToken] throws a
    QuotaExceededError, and [getToken] returns what it returned before. *)
Theorem setToken_getToken_roundtrip (c : string) (w : World)
    (items : gmap string string) :
  localStorage w = Some items →
  (can_store w items TOKEN_KEY c = true →
     ∃ w', setToken (JStr c) w = (Return (), w')
         ∧ getToken w' = (Return (Some c), w')
         ∧ localStorage w' = Some (<[TOKEN_KEY := c]> items)
         ∧ ∀ c0 w0, setToken (JStr c0) w = (Return (), w0) →
                    can_store w0 (<[TOKEN_KEY := c0]> items) TOKEN_KEY c = true →
                    setToken (JStr c) w0 = (Return (), w'))
  ∧ (can_store w items TOKEN_KEY c = false →
     setToken (JStr c) w = (Throw (NativeError "QuotaExceededError"), w)
     ∧ getToken w = (Return (items !! TOKEN_KEY), w)).
Proof.
  intros H. rewrite (setToken_run (JStr c)), H. simpl. split; intros ->.
  - eexists. split; [reflexivity|].
    split; [run; simpl; by rewrite lookup_insert_eq|]. split; [done|].
    intros c0 w0. rewrite (setToken_run (JStr c0)), H. simpl.
    destruct (can_store w items TOKEN_KEY c0); [|done].
    intros [= <-]. rewrite (setToken_run (JStr c)). simpl. intros ->.
    by rewrite insert_insert_eq.
  - split; [done|]. run. by rewrite H.
Qed.

(** C8: whatever the store holds, after [clearToken] a [getToken] returns
    [null], and a further [clearToken] changes nothing. *)
Theorem clearToken_absent_idempotent (w : World) (items : gmap string string) :
  localStorage w = Some items →
  ∃ w', clearToken w = (Return (), w')
      ∧ getToken w' = (Return None, w')
      ∧ clearToken w' = (Return (), w').
Proof.
  intros H. run. rewrite H. simpl. eexists. split; [reflexivity|]. simpl.
  rewrite lookup_delete_eq. split; [done|].
  by rewrite delete_delete_eq.
Qed.

(** C9, amended: with localStorage available, [getToken] and [clearToken]
    complete without an error, and [setToken] (of a string) does when the
    store can take the value; when it cannot, [setToken] throws a
    QuotaExceededError and the world stays as it was.  With localStorage
    missing or inaccessible, each of the three throws, a ReferenceError
    when there is no such global and a SecurityError when access to the
    store is denied, and leaves the world as it was, instead of behaving
    as if no token were stored. *)
Theorem token_store_failure_modes (w : World) :
  (∀ items, localStorage w = Some items →
     (getToken w).1 = Return (items !! TOKEN_KEY)
     ∧ (clearToken w).1 = Return ()
     ∧ (∀ c, can_store w items TOKEN_KEY c = true →
          (setToken (JStr c) w).1 = Return ())
     ∧ (∀ c, can_store w items TOKEN_KEY c = false →
          setToken (JStr c) w = (Throw (NativeError "QuotaExceededError"), w)))
  ∧ (localStorage w = None →
     ∃ e, e = NativeError (if blocked w then "SecurityError" else "ReferenceError")
        ∧ getToken w = (Throw e, w)
        ∧ (∀ v, setToken v w = (Throw e, w))
        ∧ clearToken w = (Throw e, w)).
Proof.
  split.
  - intros items H. split; [run; by rewrite H|]. split; [run; by rewrite H|].
    split; intros c Hfit; by rewrite (setToken_run (JStr c)), H; simpl; rewrite Hfit.
  - intros H. eexists. split; [reflexivity|]. run. by rewrite H.
Qed.

(** C10: [apiRequest] only reads the token store.  However the call
    completes, localStorage is what it was when the call started, and so is
    what [getToken] returns. *)
Theorem apiRequest_preserves_token_store (env : Env) (path : string)
    (options : RequestInit) (w : World) :
  localStorage (apiRequest env path options w).2 = localStorage w
  ∧ (getToken (apiRequest env path options w).2).1 = (getToken w).1.
Proof.
  destruct (apiRequest_frame env path options w) as (Hls & _ & _).
  destruct (apiRequest_platform env path options w) as (Hb & _).
  split; [exact Hls|].
  destruct (localStorage w) as [items|] eqn:H.
  - by rewrite (getToken_available _ items Hls), (getToken_available _ items H).
  - rewrite (getToken_no_storage _ Hls), (getToken_no_storage _ H).
    unfold storage_error. by rewrite Hb.
Qed.

(** ** The API client *)

Lemma nonempty_true (s : string) : nonempty s = true ↔ s ≠ "".
Proof. destruct s; simpl; split; done. Qed.

Lemma append_inj_r (s a b : string) : s +:+ a = s +:+ b → a = b.
Proof.
  induction s as [|ch s IH]; intros Heq; [exact Heq|].
  apply IH. by injection Heq.
Qed.

(** [data && data.k || d] when [data.k] is a non-empty string. *)
Lemma truthy_property (data : JsValue) (k m : string) (d : JsValue) :
  get_prop data k = JStr m → nonempty m = true →
  js_or (js_and data (get_prop data k)) d = JStr m.
Proof.
  intros Hm Hne.
  assert (truthy data = true) as Hdata by (by destruct data).
  unfold js_and, js_or. rewrite Hdata, Hm. simpl. by rewrite Hne.
Qed.

Lemma truthy_and_property (data : JsValue) (k m : string) :
  get_prop data k = JStr m → nonempty m = true →
  truthy (js_and data (get_prop data k)) = true.
Proof.
  intros Hm Hne.
  assert (truthy data = true) as Hdata by (by destruct data).
  unfold js_and. rewrite Hdata, Hm. exact Hne.
Qed.

Lemma falsy_and (a b : JsValue) : truthy b = false → truthy (js_and a b) = false.
Proof. unfold js_and. intros Hb. by destruct (truthy a) eqn:Ha. Qed.

(** [data && data.k || d] when [data.k] is truthy. *)
Lemma truthy_message (data : JsValue) (k : string) (d : JsValue) :
  truthy (get_prop data k) = true →
  js_or (js_and data (get_prop data k)) d = get_prop data k.
Proof.
  intros Hk.
  assert (truthy data = true) as Hdata by (by destruct data).
  unfold js_and, js_or. by rewrite Hdata, Hk.
Qed.

(** ** Building the request *)

Lemma or_empty_default (s : option string) : or_empty s = default "" s.
Proof. destruct s as [[|c s]|]; reflexivity. Qed.

(** The Content-Type of the request is always accepted. *)
Lemma content_type_set (h : Headers) :
  ∃ h', Headers_set h "Content-Type" "application/json" = Return h'
        ∧ Headers_get h' "Content-Type" = Some "application/json"
        ∧ Headers_get h' "Authorization" = Headers_get h "Authorization".
Proof.
  eexists. split; [by apply Headers_set_accepted|].
  split.
  - by erewrite Headers_get_set_eq by (by apply Headers_set_accepted).
  - by erewrite Headers_get_set_ne by (by apply Headers_set_accepted || done).
Qed.

(** The request, by the token that was read: without a truthy token the
    request is built, with the Authorization header of the descriptor. *)
Lemma request_authorization_falsy (env : Env) (path : string)
    (options : RequestInit) (token : option string) :
  token_truthy token = false →
  ∃ req, apiRequest_request env token path options = Return req
         ∧ Headers_get (request_headers req) "Authorization"
           = Headers_get (Headers_new (default [] (headers options)))
               "Authorization".
Proof.
  intros Ht. unfold apiRequest_request.
  destruct (content_type_set (Headers_new (default [] (headers options))))
    as (h & -> & _ & Hauth).
  simpl. destruct token as [t|]; simpl in *; rewrite ?Ht; eexists; by split.
Qed.

(** With a truthy token the request is built when the platform accepts the
    header, and carries it, normalised. *)
Lemma request_authorization_truthy (env : Env) (path : string)
    (options : RequestInit) (c : string) :
  c ≠ "" →
  valid_value (normalize ("Bearer " +:+ c)) = true →
  ∃ req, apiRequest_request env (Some c) path options = Return req
         ∧ Headers_get (request_headers req) "Authorization"
           = Some (normalize ("Bearer " +:+ c)).
Proof.
  intros Hc Hvalid. apply nonempty_true in Hc. unfold apiRequest_request.
  destruct (content_type_set (Headers_new (default [] (headers options))))
    as (h & -> & _ & _).
  simpl. rewrite Hc.
  assert (valid_name "Authorization" && valid_value (normalize ("Bearer " +:+ c))
          = true) as Hok by (by rewrite Hvalid).
  rewrite (Headers_set_accepted h _ _ Hok). simpl. eexists. split; [done|]. simpl.
  by apply (Headers_get_set_eq h), Headers_set_accepted.
Qed.

(** With a truthy token that the platform refuses in a header, building
    the request throws. *)
Lemma request_refused (env : Env) (path : string) (options : RequestInit)
    (c : string) :
  c ≠ "" →
  valid_value (normalize ("Bearer " +:+ c)) = false →
  apiRequest_request env (Some c) path options = Throw (NativeError "TypeError").
Proof.
  intros Hc Hvalid. apply nonempty_true in Hc. unfold apiRequest_request.
  destruct (content_type_set (Headers_new (default [] (headers options))))
    as (h & -> & _ & _).
  simpl. rewrite Hc.
  assert (valid_name "Authorization" && valid_value (normalize ("Bearer " +:+ c))
          = false) as Hok by (by rewrite Hvalid).
  by rewrite (Headers_set_refused h _ _ Hok).
Qed.

(** Building the request throws in that case only. *)
Lemma request_thrown (env : Env) (path : string) (options : RequestInit)
    (token : option string) (e : JsError) :
  apiRequest_request env token path options = Throw e →
  e = NativeError "TypeError"
  ∧ ∃ c, token = Some c ∧ c ≠ ""
         ∧ valid_value (normalize ("Bearer " +:+ c)) = false.
Proof.
  intros He. destruct (token_truthy token) eqn:Ht.
  - destruct token as [c|]; [|done]. simpl in Ht.
    pose proof Ht as Hc. apply nonempty_true in Hc.
    destruct (valid_value (normalize ("Bearer " +:+ c))) eqn:Hvalid.
    + destruct (request_authorization_truthy env path options c Hc Hvalid)
        as (req & Hreq & _). congruence.
    + rewrite (request_refused env path options c Hc Hvalid) in He.
      injection He as <-. split; [done|]. by exists c.
  - destruct (request_authorization_falsy env path options token Ht)
      as (req & Hreq & _). congruence.
Qed.

(** The URL, the method, the body and the Content-Type of a request that
    was built. *)
Lemma request_shape (env : Env) (path : string) (options : RequestInit)
    (token : option string) (req : Request) :
  apiRequest_request env token path options = Return req →
  url req = default "" (REACT_APP_API_BASE_URL env) +:+ path
  ∧ request_method req = method options
  ∧ request_body req = body options
  ∧ Headers_get (request_headers req) "Content-Type" = Some "application/json".
Proof.
  unfold apiRequest_request.
  destruct (content_type_set (Headers_new (default [] (headers options))))
    as (h & -> & Hct & _).
  simpl. rewrite or_empty_default.
  destruct token as [t|]; [destruct (token_truthy (Some t))|];
    try (intros [= <-]; by repeat split).
  destruct (Headers_set h "Authorization" ("Bearer " +:+ t)) as [h'|e] eqn:Hset;
    [|done].
  simpl. intros [= <-]. repeat split. simpl.
  by rewrite (Headers_get_set_ne _ _ _ _ _ Hset).
Qed.

(** What [apiRequest] does when the request cannot be built. *)
Lemma apiRequest_not_sent (env : Env) (path : string) (options : RequestInit)
    (w : World) (items : gmap string string) (e : JsError) :
  localStorage w = Some items →
  apiRequest_request env (items !! TOKEN_KEY) path options = Throw e →
  apiRequest env path options w = (Throw e, w).
Proof. intros H He. rewrite (apiRequest_run _ _ _ _ _ H). simpl. by rewrite He. Qed.

(** What it hands to [fetch] when the request is built. *)
Lemma apiRequest_sent (env : Env) (path : string) (options : RequestInit)
    (w : World) (items : gmap string string) (req : Request) :
  localStorage w = Some items →
  apiRequest_request env (items !! TOKEN_KEY) path options = Return req →
  fetched (apiRequest env path options w).2 = (fetched w ++ [req])%list.
Proof. intros H He. rewrite (apiRequest_run _ _ _ _ _ H). simpl. by rewrite He. Qed.

(** The requests of a world with a non-empty credential [c] stored. *)
Lemma apiRequest_bearer (env : Env) (path : string) (options : RequestInit)
    (w : World) (items : gmap string string) (c : string) :
  localStorage w = Some items →
  items !! TOKEN_KEY = Some c →
  c ≠ "" →
  (valid_value (normalize ("Bearer " +:+ c)) = true →
     ∃ req,
       fetched (apiRequest env path options w).2 = (fetched w ++ [req])%list
       ∧ Headers_get (request_headers req) "Authorization"
         = Some (normalize ("Bearer " +:+ c)))
  ∧ (valid_value c = true → strip_trailing c = c →
     ∃ req,
       fetched (apiRequest env path options w).2 = (fetched w ++ [req])%list
       ∧ Headers_get (request_headers req) "Authorization"
         = Some ("Bearer " +:+ c))
  ∧ (valid_value (normalize ("Bearer " +:+ c)) = false →
     apiRequest env path options w = (Throw (NativeError "TypeError"), w)).
Proof.
  intros H Hc Hne.
  assert (valid_value (normalize ("Bearer " +:+ c)) = true →
          ∃ req,
            fetched (apiRequest env path options w).2 = (fetched w ++ [req])%list
            ∧ Headers_get (request_headers req) "Authorization"
              = Some (normalize ("Bearer " +:+ c))) as Hvalid.
  { intros Hvalid.
    destruct (request_authorization_truthy env path options c Hne Hvalid)
      as (req & Hreq & Hauth).
    exists req. split; [|done]. apply (apiRequest_sent _ _ _ _ items); [done|].
    by rewrite Hc. }
  split; [exact Hvalid|]. split.
  - intros Hv Hs. rewrite <- (bearer_unchanged c Hne Hs). apply Hvalid.
    by rewrite (bearer_unchanged c Hne Hs), bearer_valid.
  - intros Hrefused. apply (apiRequest_not_sent _ _ _ _ items); [done|].
    rewrite Hc. by apply request_refused.
Qed.



(** C1, amended: a response whose status is outside 200-299 never makes
    [apiRequest] return.  When its body is read as [data], the error thrown
    carries the status and [data], and its message is: the [message]
    property of [data] when that is a non-empty string; the conversion of
    that property to a string when it is truthy and not a string;
    ["Request failed <status>"] when [data] has no [message] property or a
    falsy one.  When the conversion of a truthy [message] throws, as for an
    object with a property [toString] of its own, that error is thrown
    instead, without status or payload.  When reading the body fails, that
    error is the one thrown. *)
Theorem apiRequest_failure (env : Env) (path : string) (options : RequestInit)
    (w : World) (items : gmap string string) (res : Response) :
  localStorage w = Some items →
  fetch env (apiRequest_request env (items !! TOKEN_KEY) path options) = Return res →
  ok res = false →
  (∀ data, (apiRequest env path options w).1 ≠ Return data)
  ∧ (∀ data, response_data res = Return data →
       (∀ m, get_prop data "message" = JStr m → m ≠ "" →
          (apiRequest env path options w).1 = Throw (ApiError m (status res) data))
       ∧ (truthy (get_prop data "message") = true →
          ∀ m, ToString (get_prop data "message") = Return m →
          (apiRequest env path options w).1 = Throw (ApiError m (status res) data))
       ∧ (truthy (get_prop data "message") = true →
          ∀ e, ToString (get_prop data "message") = Throw e →
          (apiRequest env path options w).1 = Throw e)
       ∧ (∀ props, get_prop data "message" = JObj props →
          assoc "toString" props ≠ None →
          (apiRequest env path options w).1 = Throw (NativeError "TypeError"))
       ∧ (truthy (get_prop data "message") = false →
          (apiRequest env path options w).1
          = Throw (ApiError ("Request failed " +:+ pretty (status res))
                            (status res) data)))
  ∧ (∀ e, response_data res = Throw e →
       (apiRequest env path options w).1 = Throw e).
Proof.
  intros H Hres Hok. rewrite (apiRequest_run _ _ _ _ _ H). simpl.
  rewrite Hres, Hok. simpl. split; [|split].
  - intros data. destruct (response_data res); [|done]. by destruct (ToString _).
  - intros data ->.
    assert (truthy (get_prop data "message") = true →
            ∀ r, ToString (get_prop data "message") = r →
            match ToString
                    (js_or (js_and data (get_prop data "message"))
                       (JStr ("Request failed " +:+ pretty (status res)))) with
            | Return m => Throw (ApiError m (status res) data)
            | Throw e => Throw e
            end
            = match r with
              | Return m => Throw (ApiError m (status res) data)
              | Throw e => Throw e
              end :> Result JsValue) as Htruthy.
    { intros Ht r <-. by rewrite (truthy_message _ _ _ Ht). }
    split; [|split; [|split; [|split]]].
    + intros m Hm Hne. apply nonempty_true in Hne.
      by rewrite (truthy_property _ _ _ _ Hm Hne).
    + intros Ht m Hm. by rewrite (Htruthy Ht _ Hm).
    + intros Ht e He. by rewrite (Htruthy Ht _ He).
    + intros props Hm Hshadow.
      rewrite (Htruthy (ltac:(by rewrite Hm)) _ eq_refl), Hm. simpl.
      by destruct (assoc "toString" props).
    + intros Hfalsy. unfold js_or. by rewrite (falsy_and _ _ Hfalsy).
  - by intros e ->.
Qed.

(** ** Authentication *)

(** [login] after its request: an error of [apiRequest] is rethrown; a
    payload with a truthy [token] is handed to [setToken], and [login]
    returns true when that returns; a payload without one is not stored. *)
Lemma login_run (env : Env) (email password : string) (w : World) :
  login env email password w =
    match apiRequest env "/auth/login" (login_options env email password) w with
    | (Throw e, w1) => (Throw e, w1)
    | (Return data, w1) =>
        if truthy (js_and data (get_prop data "token")) then
          match setToken (get_prop data "token") w1 with
          | (Throw e, w2) => (Throw e, w2)
          | (Return _, w2) => (Return true, (setTok (get_prop data "token") w2).2)
          end
        else (Return false, w1)
    end.
Proof.
  unfold login. unfold bind at 1.
  destruct (apiRequest _ _ _ w) as [[data|e] w1]; [|done].
  destruct (truthy _); [|done]. unfold bind at 1.
  by destruct (setToken (get_prop data "token") w1) as [[[]|e] w2].
Qed.

(** [setToken] and [setTok] leave the navigations as they were. *)
Lemma setToken_replaced (v : JsValue) (w : World) :
  replaced (setToken v w).2 = replaced w.
Proof.
  rewrite setToken_run. destruct (localStorage w) as [items|]; [|done].
  destruct (ToString v) as [s|e]; [|done].
  by destruct (can_store w items TOKEN_KEY s).
Qed.

(** [login] leaves the calls of [window.location.replace] as they were. *)
Lemma login_replaced (env : Env) (email password : string) (w : World) :
  replaced (login env email password w).2 = replaced w.
Proof.
  rewrite login_run.
  destruct (apiRequest_frame env "/auth/login"
              (login_options env email password) w) as (_ & _ & Hr).
  destruct (apiRequest _ _ _ w) as [[data|e] w1]; simpl in *; [|done].
  destruct (truthy _); [|done].
  pose proof (setToken_replaced (get_prop data "token") w1) as Hs.
  destruct (setToken (get_prop data "token") w1) as [[[]|e] w2]; simpl in *;
    congruence.
Qed.

(** The submit handler, by the completion of [login]. *)
Lemma onSubmit_run (env : Env) (location : Location) (st : LoginPageState)
    (w : World) :
  onSubmit env location st w =
    match login env (form_email st) (form_password st) w with
    | (Return true, w') =>
        (Return {| form_email := form_email st; form_password := form_password st;
                   page_status := "submitting"; page_error := "" |},
         (window_location_replace (LoginPage_from location) w').2)
    | (Return false, w') =>
        (Return {| form_email := form_email st; form_password := form_password st;
                   page_status := "idle"; page_error := "Invalid credentials" |}, w')
    | (Throw _, w') =>
        (Return {| form_email := form_email st; form_password := form_password st;
                   page_status := "idle"; page_error := "Login failed" |}, w')
    end.
Proof.
  unfold onSubmit, try_catch. unfold bind at 1.
  by destruct (login _ _ _ w) as [[[]|e] w'].
Qed.

(** A request that completed found localStorage in place. *)
Lemma apiRequest_returned_storage (env : Env) (path : string)
    (options : RequestInit) (w w1 : World) (data : JsValue) :
  apiRequest env path options w = (Return data, w1) →
  ∃ items, localStorage w = Some items ∧ localStorage w1 = Some items
           ∧ tok w1 = tok w ∧ accepts w1 = accepts w.
Proof.
  intros Hreq.
  pose proof (apiRequest_frame env path options w) as (Hls & Htok & _).
  pose proof (apiRequest_platform env path options w) as (_ & Hacc).
  rewrite Hreq in Hls, Htok, Hacc. simpl in *.
  destruct (localStorage w) as [items|] eqn:H.
  - by exists items.
  - rewrite (apiRequest_no_storage _ _ _ _ H) in Hreq. done.
Qed.

(** C4, amended: when the login request succeeds with a payload whose
    [token] is a non-empty string [t] and the store can take [t], [login]
    stores [t] and returns true, and [getToken] then returns [t]; when the
    store cannot take it, [login] throws the QuotaExceededError of
    [setToken] and localStorage is what it was.  When the payload has no
    [token] property, [login] returns false and localStorage is what it
    was. *)
Theorem login_success (env : Env) (email password : string) (w w1 : World)
    (data : JsValue) :
  apiRequest env "/auth/login" (login_options env email password) w
  = (Return data, w1) →
  (∀ t, get_prop data "token" = JStr t → t ≠ "" →
     ∃ items, localStorage w = Some items
       ∧ (can_store w items TOKEN_KEY t = true →
          ∃ w2, login env email password w = (Return true, w2)
              ∧ localStorage w2 = Some (<[TOKEN_KEY := t]> items)
              ∧ getToken w2 = (Return (Some t), w2))
       ∧ (can_store w items TOKEN_KEY t = false →
          login env email password w
          = (Throw (NativeError "QuotaExceededError"), w1)
          ∧ localStorage w1 = localStorage w))
  ∧ (get_prop data "token" = JUndefined →
     login env email password w = (Return false, w1)
     ∧ localStorage w1 = localStorage w).
Proof.
  intros Hreq.
  destruct (apiRequest_returned_storage _ _ _ _ _ _ Hreq)
    as (items & H & H1 & _ & Hacc).
  rewrite login_run, Hreq. split.
  - intros t Ht Hne. apply nonempty_true in Hne. exists items. split; [done|].
    rewrite (truthy_and_property data "token" t Ht Hne), setToken_run, H1, Ht.
    simpl. rewrite (can_store_frame _ _ _ _ _ Hacc). split; intros ->.
    + eexists. split; [reflexivity|]. split; [done|].
      run. simpl. by rewrite lookup_insert_eq.
    + split; [done|]. by rewrite H.
  - intros Hnone. rewrite (falsy_and data _) by (by rewrite Hnone).
    split; [done|]. by rewrite H, H1.
Qed.


(** ** The route guard and the login page *)

Lemma RequireAuth_run {A} (children : A) (location : Location) (w : World)
    (items : gmap string string) :
  localStorage w = Some items →
  RequireAuth children location w =
    (Return (if token_truthy (items !! TOKEN_KEY)
             then Children children
             else Navigate "/login" true (State (Some location))), w).
Proof.
  intros H. unfold RequireAuth. unfold bind.
  rewrite (getToken_available _ _ H). by destruct (token_truthy _).
Qed.

(** C5, amended: evaluated with a non-empty credential stored, the guard
    renders its children as they are; with no credential stored, or with
    the empty string stored, it renders no child: it redirects to /login,
    replacing the location, and the state of the redirect records the
    location that was requested. *)
Theorem RequireAuth_guard {A} (children : A) (location : Location) (w : World)
    (items : gmap string string) :
  localStorage w = Some items →
  (∀ c, items !! TOKEN_KEY = Some c → c ≠ "" →
     RequireAuth children location w = (Return (Children children), w))
  ∧ (items !! TOKEN_KEY = None ∨ items !! TOKEN_KEY = Some "" →
     RequireAuth children location w
     = (Return (Navigate "/login" true (State (Some location))), w)).
Proof.
  intros H. rewrite (RequireAuth_run _ _ _ _ H). split.
  - intros c -> Hc. apply nonempty_true in Hc. simpl. by rewrite Hc.
  - by intros [-> | ->].
Qed.

(** The pathname of a router location is never empty. *)
Lemma nonempty_pathname (l : Location) : nonempty (pathname l) = true.
Proof. by destruct l. Qed.

(** C6: when [login] resolves true, the submit handler navigates, once, to
    the pathname of the origin recorded in the state of the login location,
    and to /admin when no origin is recorded.  In particular, after the
    guard has redirected a request for /admin, a successful login navigates
    to /admin. *)
Theorem login_navigates_to_origin (env : Env) (location : Location)
    (st : LoginPageState) (w w' : World) :
  login env (form_email st) (form_password st) w = (Return true, w') →
  (∀ origin, state location = Some (State (Some origin)) →
     replaced (onSubmit env location st w).2
     = (replaced w ++ [pathname origin])%list)
  ∧ (state location = None ∨ state location = Some (State None) →
     replaced (onSubmit env location st w).2 = (replaced w ++ ["/admin"])%list)
  ∧ (∀ A (children : A) requested w0 w0' to rep nav,
       RequireAuth children requested w0 = (Return (Navigate to rep nav), w0') →
       pathname requested = "/admin" →
       location = navigated to nav →
       to = "/login"
       ∧ replaced (onSubmit env location st w).2
         = (replaced w ++ ["/admin"])%list).
Proof.
  intros Hlogin.
  assert (replaced (onSubmit env location st w).2
          = (replaced w ++ [LoginPage_from location])%list) as Hnav.
  { rewrite onSubmit_run, Hlogin. simpl.
    by rewrite <- (login_replaced env (form_email st) (form_password st) w), Hlogin. }
  rewrite Hnav. unfold LoginPage_from. split; [|split].
  - intros origin ->. simpl. by rewrite nonempty_pathname.
  - by intros [-> | ->].
  - intros A children requested w0 w0' to rep nav Hguard Hpath ->.
    assert (to = "/login" ∧ nav = State (Some requested)) as [-> ->].
    { unfold RequireAuth, bind in Hguard.
      destruct (getToken w0) as [[token|e] w1]; [|done].
      destruct (negb (token_truthy token)); [|done].
      unfold ret in Hguard. by injection Hguard as <- _ <- _. }
    simpl. by rewrite Hpath.
Qed.

(** * Further properties of the code *)

(** ** The request and the completion of [apiRequest] *)

(** Without a truthy token, or with one that the platform accepts in a
    header, the request is built. *)
Lemma request_built (env : Env) (path : string) (options : RequestInit)
    (token : option string) :
  token = None ∨ token = Some ""
  ∨ (∃ c, token = Some c ∧ valid_value (normalize ("Bearer " +:+ c)) = true) →
  ∃ req, apiRequest_request env token path options = Return req.
Proof.
  intros [-> | [-> | (c & -> & Hvalid)]].
  - destruct (request_authorization_falsy env path options None eq_refl)
      as (req & Hreq & _). by exists req.
  - destruct (request_authorization_falsy env path options (Some "") eq_refl)
      as (req & Hreq & _). by exists req.
  - destruct (decide (c = "")) as [-> | Hne].
    + destruct (request_authorization_falsy env path options (Some "") eq_refl)
        as (req & Hreq & _). by exists req.
    + destruct (request_authorization_truthy env path options c Hne Hvalid)
        as (req & Hreq & _). by exists req.
Qed.

(** X1: with localStorage available and no stored token, an empty one, or
    one that the platform accepts in a header value, a call of [apiRequest]
    hands exactly one request to [fetch]: to the base URL (empty when
    unset) followed by the path, with the method and body of the
    descriptor, and with the Content-Type [application/json] whatever the
    descriptor's own headers say.  With a non-empty stored token that the
    platform refuses in a header value, it throws a TypeError and hands
    nothing to [fetch]; without localStorage it throws before that. *)
Theorem apiRequest_sends_one_request (env : Env) (path : string)
    (options : RequestInit) (w : World) :
  (∀ items, localStorage w = Some items →
     (items !! TOKEN_KEY = None ∨ items !! TOKEN_KEY = Some ""
      ∨ (∃ c, items !! TOKEN_KEY = Some c
              ∧ valid_value (normalize ("Bearer " +:+ c)) = true) →
      ∃ req,
        fetched (apiRequest env path options w).2 = (fetched w ++ [req])%list
        ∧ url req = default "" (REACT_APP_API_BASE_URL env) +:+ path
        ∧ request_method req = method options
        ∧ request_body req = body options
        ∧ Headers_get (request_headers req) "Content-Type"
          = Some "application/json")
     ∧ (∀ c, items !! TOKEN_KEY = Some c → c ≠ "" →
          valid_value (normalize ("Bearer " +:+ c)) = false →
          apiRequest env path options w = (Throw (NativeError "TypeError"), w)))
  ∧ (localStorage w = None →
     apiRequest env path options w
     = (Throw (NativeError (if blocked w then "SecurityError"
                            else "ReferenceError")), w)).
Proof.
  split.
  - intros items H. split.
    + intros Htoken.
      destruct (request_built env path options _ Htoken) as (req & Hreq).
      exists req. split; [by apply (apiRequest_sent _ _ _ _ items)|].
      by apply (request_shape env path options (items !! TOKEN_KEY)).
    + intros c Hc Hne Hrefused.
      by destruct (apiRequest_bearer env path options w items c H Hc Hne)
        as (_ & _ & Hthrows); apply Hthrows.
  - apply apiRequest_no_storage.
Qed.

(** X2: when [fetch] rejects, [apiRequest] throws that error; when the
    response has a status in 200-299, [apiRequest] completes as the reading
    of the body does: with the parsed JSON when the content type contains
    [application/json], and otherwise, also without any content type, with
    the text as a string. *)
Theorem apiRequest_completion (env : Env) (path : string) (options : RequestInit)
    (w : World) (items : gmap string string) :
  localStorage w = Some items →
  (∀ e, fetch env (apiRequest_request env (items !! TOKEN_KEY) path options) = Throw e →
     (apiRequest env path options w).1 = Throw e)
  ∧ (∀ res,
       fetch env (apiRequest_request env (items !! TOKEN_KEY) path options) = Return res →
       ok res = true →
       (∀ ct, Headers_get (response_headers res) "content-type" = Some ct →
          includes ct "application/json" = true →
          (apiRequest env path options w).1 = json res)
       ∧ (Headers_get (response_headers res) "content-type" = None
          ∨ (∃ ct, Headers_get (response_headers res) "content-type" = Some ct
                   ∧ includes ct "application/json" = false) →
          (apiRequest env path options w).1
          = match text res with
            | Return t => Return (JStr t)
            | Throw e => Throw e
            end)).
Proof.
  intros H. rewrite (apiRequest_run _ _ _ _ _ H). simpl. split.
  - by intros e ->.
  - intros res -> Hok. rewrite Hok. simpl. unfold response_data. split.
    + intros ct -> Hct. rewrite or_empty_default. simpl. rewrite Hct.
      by destruct (json res).
    + intros [-> | (ct & -> & Hct)]; rewrite or_empty_default; simpl.
      * by destruct (text res).
      * rewrite Hct. by destruct (text res).
Qed.

(** ** The token store and the session *)

(** X3: the token utilities touch the entry [auth_token] and nothing else:
    every other entry of localStorage reads the same after [setToken] and
    after [clearToken], [getToken] changes nothing at all, and none of them
    touches the React state, the requests or the navigations. *)
Theorem token_utilities_frame (w : World) (v : JsValue) (key : string) :
  key ≠ TOKEN_KEY →
  item (setToken v w).2 key = item w key
  ∧ item (clearToken w).2 key = item w key
  ∧ (getToken w).2 = w
  ∧ (tok (setToken v w).2 = tok w ∧ fetched (setToken v w).2 = fetched w
     ∧ replaced (setToken v w).2 = replaced w)
  ∧ (tok (clearToken w).2 = tok w ∧ fetched (clearToken w).2 = fetched w
     ∧ replaced (clearToken w).2 = replaced w).
Proof.
  intros Hkey. unfold item. rewrite setToken_run. run.
  destruct (localStorage w) as [items|] eqn:H; simpl; [|by rewrite H].
  destruct (ToString v) as [s|e]; simpl; rewrite ?H;
    [destruct (can_store w items TOKEN_KEY s); simpl; rewrite ?H|];
    rewrite ?lookup_insert_ne, ?lookup_delete_ne by done; done.
Qed.

(** X4: [logout] removes the credential and resets the React state, and a
    second [logout] changes nothing.  From then on the guard redirects
    every location to /login, and a request whose descriptor has no
    Authorization header of its own is sent without one. *)
Theorem logout_ends_session (w : World) (items : gmap string string) :
  localStorage w = Some items →
  ∃ w', logout w = (Return (), w')
      ∧ item w' TOKEN_KEY = None
      ∧ tok w' = JNull
      ∧ logout w' = (Return (), w')
      ∧ (∀ A (children : A) location,
           RequireAuth children location w'
           = (Return (Navigate "/login" true (State (Some location))), w'))
      ∧ (∀ env path options,
           Headers_has (Headers_new (default [] (headers options)))
             "Authorization" = false →
           ∃ req,
             fetched (apiRequest env path options w').2
             = (fetched w' ++ [req])%list
             ∧ Headers_has (request_headers req) "Authorization" = false).
Proof.
  intros H. unfold logout. run. rewrite H. simpl. eexists. split; [reflexivity|].
  set (w' := {| localStorage := Some (delete TOKEN_KEY items);
                blocked := blocked w; accepts := accepts w; tok := JNull;
                fetched := fetched w; replaced := replaced w |}).
  assert (localStorage w' = Some (delete TOKEN_KEY items)) as Hw' by done.
  split; [unfold item; simpl; apply lookup_delete_eq|]. split; [done|].
  split; [rewrite Hw'; simpl; unfold w'; by rewrite delete_delete_eq|]. split.
  - intros A children location.
    rewrite (RequireAuth_run _ _ _ _ Hw'). by rewrite lookup_delete_eq.
  - intros env path options Hown.
    destruct (request_authorization_falsy env path options
                (delete TOKEN_KEY items !! TOKEN_KEY)) as (req & Hreq & Hauth);
      [by rewrite lookup_delete_eq|].
    exists req. split; [by apply (apiRequest_sent _ _ _ _ (delete TOKEN_KEY items))|].
    apply Headers_has_get. rewrite Hauth. by apply Headers_has_get.
Qed.

(** ** Logging in *)

(** The world after a [login] that returned true. *)
Lemma login_returned_true (env : Env) (email password : string) (w w2 : World) :
  login env email password w = (Return true, w2) →
  ∃ data w1 items s,
    apiRequest env "/auth/login" (login_options env email password) w
    = (Return data, w1)
    ∧ truthy (js_and data (get_prop data "token")) = true
    ∧ ToString (get_prop data "token") = Return s
    ∧ localStorage w = Some items
    ∧ can_store w items TOKEN_KEY s = true
    ∧ localStorage w2 = Some (<[TOKEN_KEY := s]> items)
    ∧ tok w2 = get_prop data "token".
Proof.
  rewrite login_run.
  destruct (apiRequest _ _ _ w) as [[data|e] w1] eqn:Hreq; [|done].
  destruct (apiRequest_returned_storage _ _ _ _ _ _ Hreq)
    as (items & H & H1 & _ & Hacc).
  destruct (truthy (js_and data (get_prop data "token"))) eqn:Htruthy; [|done].
  rewrite setToken_run, H1.
  destruct (ToString (get_prop data "token")) as [s|e] eqn:Hs; [|done].
  rewrite (can_store_frame _ _ _ _ _ Hacc).
  destruct (can_store w items TOKEN_KEY s) eqn:Hfit; [|done].
  intros [= <-]. by exists data, w1, items, s.
Qed.

(** X5: [login] accepts any truthy [token], string or not, and hands its
    conversion to a string to the store.  When the store can take it,
    [login] returns true, [auth_token] holds that text, the React state
    holds the token itself, and the guard then renders its children
    exactly when the text is not empty (the token [[]] logs in and is
    redirected all the same); when the store cannot take it, [login]
    throws the QuotaExceededError and nothing is stored.  When the
    conversion throws, [login] throws that error and nothing is stored. *)
Theorem login_stores_token_text (env : Env) (email password : string)
    (w w1 : World) (data : JsValue) :
  apiRequest env "/auth/login" (login_options env email password) w
  = (Return data, w1) →
  truthy (js_and data (get_prop data "token")) = true →
  (∀ s, ToString (get_prop data "token") = Return s →
     ∃ items, localStorage w = Some items
       ∧ (can_store w items TOKEN_KEY s = true →
          ∃ w2, login env email password w = (Return true, w2)
              ∧ item w2 TOKEN_KEY = Some s
              ∧ tok w2 = get_prop data "token"
              ∧ ∀ A (children : A) location,
                  RequireAuth children location w2
                  = (Return (if nonempty s then Children children
                             else Navigate "/login" true (State (Some location))),
                     w2))
       ∧ (can_store w items TOKEN_KEY s = false →
          login env email password w
          = (Throw (NativeError "QuotaExceededError"), w1)
          ∧ localStorage w1 = localStorage w))
  ∧ (∀ e, ToString (get_prop data "token") = Throw e →
       login env email password w = (Throw e, w1)
       ∧ localStorage w1 = localStorage w).
Proof.
  intros Hreq Htruthy.
  destruct (apiRequest_returned_storage _ _ _ _ _ _ Hreq)
    as (items & H & H1 & _ & Hacc).
  rewrite login_run, Hreq, Htruthy, setToken_run, H1. split.
  - intros s ->. exists items. split; [done|].
    rewrite (can_store_frame _ _ _ _ _ Hacc). split; intros ->.
    + eexists. split; [reflexivity|].
      split; [unfold item; simpl; apply lookup_insert_eq|]. split; [done|].
      intros A children location.
      erewrite RequireAuth_run by reflexivity.
      rewrite lookup_insert_eq. simpl. by destruct (nonempty s).
    + split; [done|]. by rewrite H.
  - intros e ->. split; [done|]. by rewrite H.
Qed.

(** X6: [login] never touches an entry of localStorage other than
    [auth_token], never navigates, and unless it returns true it leaves
    localStorage and the React state as they were. *)
Theorem login_frame (env : Env) (email password : string) (w : World) :
  (∀ key, key ≠ TOKEN_KEY →
     item (login env email password w).2 key = item w key)
  ∧ ((login env email password w).1 ≠ Return true →
     localStorage (login env email password w).2 = localStorage w
     ∧ tok (login env email password w).2 = tok w)
  ∧ replaced (login env email password w).2 = replaced w.
Proof.
  split; [|split; [|apply login_replaced]].
  - intros key Hkey. rewrite login_run.
    pose proof (apiRequest_frame env "/auth/login"
                  (login_options env email password) w) as (Hls & _ & _).
    unfold item. rewrite <- Hls.
    destruct (apiRequest _ _ _ w) as [[data|e] w1]; simpl; [|done].
    destruct (truthy _); [|done]. rewrite setToken_run.
    destruct (localStorage w1) as [items|] eqn:H1; simpl; [|by rewrite H1].
    destruct (ToString _) as [s|e]; simpl; rewrite ?H1; [|done].
    destruct (can_store w1 items TOKEN_KEY s); simpl; rewrite ?H1; [|done].
    by rewrite lookup_insert_ne.
  - intros Hnot. rewrite login_run in *.
    pose proof (apiRequest_frame env "/auth/login"
                  (login_options env email password) w) as (Hls & Htok & _).
    destruct (apiRequest _ _ _ w) as [[data|e] w1]; simpl in *; [|done].
    destruct (truthy _); [|done].
    pose proof (setToken_thrown (get_prop data "token") w1) as Hthrown.
    destruct (setToken (get_prop data "token") w1) as [[[]|e] w2]; simpl in *;
      [by destruct Hnot|].
    by rewrite (Hthrown e eq_refl).
Qed.

(** X7: [login] needs a JSON content type.  When the response to the login
    request has no content type, or one that does not contain
    [application/json], [login] never returns true and stores nothing,
    whatever the body says: on a status in 200-299 with a readable body it
    returns false. *)
Theorem login_needs_json (env : Env) (email password : string) (w : World)
    (items : gmap string string) (res : Response) :
  localStorage w = Some items →
  fetch env (login_request env (items !! TOKEN_KEY) email password) = Return res →
  (∀ ct, Headers_get (response_headers res) "content-type" = Some ct →
         includes ct "application/json" = false) →
  (login env email password w).1 ≠ Return true
  ∧ localStorage (login env email password w).2 = localStorage w
  ∧ (ok res = true → ∀ t, text res = Return t →
     (login env email password w).1 = Return false).
Proof.
  intros H Hres Hct. unfold login_request in Hres.
  assert (response_data res
          = match text res with
            | Return t => Return (JStr t)
            | Throw e => Throw e
            end) as Hdata.
  { unfold response_data.
    destruct (Headers_get (response_headers res) "content-type") as [ct|] eqn:E.
    - rewrite or_empty_default. simpl. by rewrite (Hct ct eq_refl).
    - done. }
  destruct (after_request_frame
              (apiRequest_request env (items !! TOKEN_KEY) "/auth/login"
                 (login_options env email password)) w) as (Hfls & _).
  rewrite login_run, (apiRequest_run _ _ _ _ _ H). simpl.
  rewrite Hres, Hdata.
  destruct (text res) as [t|e]; simpl.
  - destruct (ok res); simpl.
    + rewrite (falsy_and (JStr t) JUndefined eq_refl). simpl.
      by repeat split.
    + destruct (ToString _); by repeat split.
  - by repeat split.
Qed.

(** X8: after a [login] that returned true the store holds a token text
    [s], and what follows reads it at the time of the call: the guard
    renders its children at every location exactly when [s] is not empty;
    and for a non-empty [s], every later request of [apiRequest], to
    whatever path, carries [Authorization: Bearer s] when the platform
    accepts [s] in a header value ([s] itself when it has no trailing
    whitespace, normalised otherwise), and throws a TypeError without a
    request going out when the platform refuses it. *)
Theorem login_starts_session (env : Env) (email password : string)
    (w w2 : World) :
  login env email password w = (Return true, w2) →
  ∃ s, item w2 TOKEN_KEY = Some s
     ∧ (∀ A (children : A) location,
          RequireAuth children location w2
          = (Return (if nonempty s then Children children
                     else Navigate "/login" true (State (Some location))), w2))
     ∧ (s ≠ "" → ∀ env' path options,
          (valid_value (normalize ("Bearer " +:+ s)) = true →
             ∃ req,
               fetched (apiRequest env' path options w2).2
               = (fetched w2 ++ [req])%list
               ∧ Headers_get (request_headers req) "Authorization"
                 = Some (normalize ("Bearer " +:+ s)))
          ∧ (valid_value s = true → strip_trailing s = s →
             ∃ req,
               fetched (apiRequest env' path options w2).2
               = (fetched w2 ++ [req])%list
               ∧ Headers_get (request_headers req) "Authorization"
                 = Some ("Bearer " +:+ s))
          ∧ (valid_value (normalize ("Bearer " +:+ s)) = false →
             apiRequest env' path options w2
             = (Throw (NativeError "TypeError"), w2))).
Proof.
  intros Hlogin.
  destruct (login_returned_true _ _ _ _ _ Hlogin)
    as (data & w1 & items & s & _ & _ & _ & _ & _ & H2 & _).
  exists s. split; [unfold item; rewrite H2; apply lookup_insert_eq|]. split.
  - intros A children location. rewrite (RequireAuth_run _ _ _ _ H2).
    rewrite lookup_insert_eq. simpl. by destruct (nonempty s).
  - intros Hne env' path options.
    apply (apiRequest_bearer env' path options w2 _ s H2); [|done].
    apply lookup_insert_eq.
Qed.

(** X9: the submit handler of the login page never throws.  It ends in
    one of three ways, by the completion of [login]: on true it navigates,
    once, and the button stays disabled; on false it shows "Invalid
    credentials"; on a thrown error it shows "Login failed"; in the last
    two it does not navigate and the button is enabled again.  The fields
    of the form are kept in all three. *)
Theorem onSubmit_outcomes (env : Env) (location : Location)
    (st : LoginPageState) (w : World) :
  ∃ st', (onSubmit env location st w).1 = Return st'
    ∧ form_email st' = form_email st
    ∧ form_password st' = form_password st
    ∧ (((login env (form_email st) (form_password st) w).1 = Return true
        ∧ replaced (onSubmit env location st w).2
          = (replaced w ++ [LoginPage_from location])%list
        ∧ page_error st' = ""
        ∧ submit_disabled (page_status st') = true)
       ∨ ((login env (form_email st) (form_password st) w).1 = Return false
          ∧ replaced (onSubmit env location st w).2 = replaced w
          ∧ page_error st' = "Invalid credentials"
          ∧ submit_disabled (page_status st') = false)
       ∨ ((∃ e, (login env (form_email st) (form_password st) w).1 = Throw e)
          ∧ replaced (onSubmit env location st w).2 = replaced w
          ∧ page_error st' = "Login failed"
          ∧ submit_disabled (page_status st') = false)).
Proof.
  rewrite onSubmit_run.
  pose proof (login_replaced env (form_email st) (form_password st) w) as Hr.
  destruct (login _ _ _ w) as [[[]|e] w']; simpl in *; eexists;
    (split; [reflexivity|]); simpl; do 2 (split; [done|]).
  - left. by rewrite Hr.
  - right. left. by rewrite Hr.
  - right. right. rewrite Hr. repeat split; try done. by exists e.
Qed.

(** ** The contact form and the admin page *)

Lemma ContactSection_onSubmit_run (env : Env) (st : ContactState) (w : World) :
  ContactSection_onSubmit env st w =
    match apiRequest env "/contact" (contact_options env (contact_form st)) w with
    | (Return _, w') =>
        (Return {| contact_status := "success"; contact_form := empty_contact |}, w')
    | (Throw _, w') =>
        (Return {| contact_status := "error"; contact_form := contact_form st |}, w')
    end.
Proof.
  unfold ContactSection_onSubmit, try_catch. unfold bind at 1.
  by destruct (apiRequest _ _ _ w) as [[data|e] w'].
Qed.

(** X10: submitting the contact form never throws and never touches
    localStorage.  When the request completes, the status is "success" and
    the fields are emptied; when it throws, for whatever reason, the status
    is "error" and the fields keep what was typed.  Either way the button
    is enabled again. *)
Theorem ContactSection_onSubmit_outcomes (env : Env) (st : ContactState)
    (w : World) :
  ∃ st', (ContactSection_onSubmit env st w).1 = Return st'
    ∧ localStorage (ContactSection_onSubmit env st w).2 = localStorage w
    ∧ submit_disabled (contact_status st') = false
    ∧ (((∃ data, (apiRequest env "/contact"
                    (contact_options env (contact_form st)) w).1 = Return data)
        ∧ contact_status st' = "success"
        ∧ contact_form st' = empty_contact)
       ∨ ((∃ e, (apiRequest env "/contact"
                   (contact_options env (contact_form st)) w).1 = Throw e)
          ∧ contact_status st' = "error"
          ∧ contact_form st' = contact_form st)).
Proof.
  rewrite ContactSection_onSubmit_run.
  pose proof (apiRequest_frame env "/contact"
                (contact_options env (contact_form st)) w) as (Hls & _ & _).
  destruct (apiRequest _ _ _ w) as [[data|e] w']; simpl in *; eexists;
    (split; [reflexivity|]); (split; [exact Hls|]); (split; [done|]).
  - left. split; [by exists data | done].
  - right. split; [by exists e | done].
Qed.

(** X11: with localStorage available and no stored token, an empty one, or
    one that the platform accepts in a header value, submitting the contact
    form sends one POST to [/contact] under the base URL, whose body is
    [JSON.stringify] of the form, whatever the network then does; with a
    non-empty stored token that the platform refuses in a header value it
    sends nothing and the status is "error".  Once a response has arrived,
    the status is "success" exactly when the status of the response is in
    200-299 and its body could be read. *)
Theorem ContactSection_success_iff (env : Env) (st : ContactState) (w : World)
    (items : gmap string string) :
  localStorage w = Some items →
  (items !! TOKEN_KEY = None ∨ items !! TOKEN_KEY = Some ""
   ∨ (∃ c, items !! TOKEN_KEY = Some c
           ∧ valid_value (normalize ("Bearer " +:+ c)) = true) →
   ∃ req,
     fetched (ContactSection_onSubmit env st w).2 = (fetched w ++ [req])%list
     ∧ url req = default "" (REACT_APP_API_BASE_URL env) +:+ "/contact"
     ∧ request_method req = Some "POST"
     ∧ request_body req
       = Some (JSON_stringify env (contact_payload (contact_form st))))
  ∧ (∀ c, items !! TOKEN_KEY = Some c → c ≠ "" →
       valid_value (normalize ("Bearer " +:+ c)) = false →
       ContactSection_onSubmit env st w
       = (Return {| contact_status := "error"; contact_form := contact_form st |},
          w))
  ∧ (∀ res,
       fetch env (apiRequest_request env (items !! TOKEN_KEY) "/contact"
                    (contact_options env (contact_form st))) = Return res →
       ∃ st', (ContactSection_onSubmit env st w).1 = Return st'
            ∧ (contact_status st' = "success"
               ↔ ok res = true ∧ ∃ data, response_data res = Return data)).
Proof.
  intros H. rewrite ContactSection_onSubmit_run. split; [|split].
  - intros Htoken.
    destruct (request_built env "/contact"
                (contact_options env (contact_form st)) _ Htoken) as (req & Hreq).
    pose proof (apiRequest_sent _ _ _ _ _ _ H Hreq) as Hsent.
    destruct (request_shape _ _ _ _ _ Hreq) as (Hurl & Hmethod & Hbody & _).
    exists req. split; [|by repeat split].
    by destruct (apiRequest _ _ _ w) as [[data|e] w'].
  - intros c Hc Hne Hrefused.
    destruct (apiRequest_bearer env "/contact"
                (contact_options env (contact_form st)) w items c H Hc Hne)
      as (_ & _ & Hthrows).
    by rewrite (Hthrows Hrefused).
  - intros res Hres. rewrite (apiRequest_run _ _ _ _ _ H). simpl. rewrite Hres.
    exists (if ok res
            then match response_data res with
                 | Return _ => {| contact_status := "success";
                                  contact_form := empty_contact |}
                 | Throw _ => {| contact_status := "error";
                                 contact_form := contact_form st |}
                 end
            else {| contact_status := "error"; contact_form := contact_form st |}).
    destruct (response_data res) as [data|e]; destruct (ok res); simpl;
      try destruct (ToString _); simpl;
      (split; [reflexivity|]);
      split; try done; try (intros [? [? ?]]; done); try (intros [? ?]; done).
    intros _. split; [done | by exists data].
Qed.

Lemma truthy_or (a b : JsValue) : truthy b = true → truthy (js_or a b) = true.
Proof. intros Hb. unfold js_or. by destruct (truthy a) eqn:Ha. Qed.

Lemma save_run (env : Env) (st : AdminState) (w : World) :
  save env st w =
    match apiRequest env "/admin/notice"
            (notice_options env (admin_message st)) w with
    | (Return res, w') =>
        (Return {| admin_message := admin_message st; admin_saving := false;
                   admin_status := js_or (optional_prop res "status")
                                         (JStr "Saved!") |}, w')
    | (Throw _, w') =>
        (Return {| admin_message := admin_message st; admin_saving := false;
                   admin_status := JStr "Failed" |}, w')
    end.
Proof.
  unfold save, try_catch. unfold bind at 1 2.
  by destruct (apiRequest _ _ _ w) as [[res|e] w'].
Qed.

(** X12: saving the notice never throws, never touches localStorage, and
    always ends with the saving flag down and a truthy status, so a status
    line is shown after every save: "Failed" when the request threw; the
    [status] of the payload when that is a non-empty string; "Saved!" when
    the payload has no truthy [status], as for a text body or [null]. *)
Theorem save_outcomes (env : Env) (st : AdminState) (w : World) :
  ∃ st', (save env st w).1 = Return st'
    ∧ admin_saving st' = false
    ∧ admin_message st' = admin_message st
    ∧ truthy (admin_status st') = true
    ∧ localStorage (save env st w).2 = localStorage w
    ∧ (((∃ e, (apiRequest env "/admin/notice"
                 (notice_options env (admin_message st)) w).1 = Throw e)
        ∧ admin_status st' = JStr "Failed")
       ∨ (∃ res, (apiRequest env "/admin/notice"
                    (notice_options env (admin_message st)) w).1 = Return res
                 ∧ (∀ s, get_prop res "status" = JStr s → s ≠ "" →
                      admin_status st' = JStr s)
                 ∧ (truthy (get_prop res "status") = false →
                      admin_status st' = JStr "Saved!"))).
Proof.
  rewrite save_run.
  pose proof (apiRequest_frame env "/admin/notice"
                (notice_options env (admin_message st)) w) as (Hls & _ & _).
  destruct (apiRequest _ _ _ w) as [[res|e] w']; simpl in *; eexists;
    (split; [reflexivity|]); simpl; do 2 (split; [done|]).
  - split; [by apply truthy_or|]. split; [exact Hls|]. right. exists res.
    assert (optional_prop res "status" = get_prop res "status") as ->
      by (by destruct res).
    split; [done|]. unfold js_or. split.
    + intros s -> Hs. apply nonempty_true in Hs. simpl. by rewrite Hs.
    + by intros ->.
  - split; [done|]. split; [exact Hls|]. left. split; [by exists e | done].
Qed.

(** ** The theme *)

(** X13: after [n] clicks on the toggle the theme is light when [n] is
    even and dark when it is odd; [aria-pressed] is true exactly on dark,
    and the label always names the theme the next click switches to.
    Whatever the theme, a click leads to light or dark. *)
Theorem theme_after_clicks (n : nat) :
  Nat.iter n toggleTheme initial_theme = (if Nat.even n then "light" else "dark")
  ∧ Header_aria_pressed (Nat.iter n toggleTheme initial_theme) = Nat.odd n
  ∧ Header_aria_label (Nat.iter n toggleTheme initial_theme)
    = "Switch to " +:+ Nat.iter (S n) toggleTheme initial_theme +:+ " mode"
  ∧ ∀ t, toggleTheme t = "light" ∨ toggleTheme t = "dark".
Proof.
  assert (Nat.iter n toggleTheme initial_theme
          = (if Nat.even n then "light" else "dark")) as Hn.
  { induction n as [|n IH]; [done|].
    rewrite Nat.even_succ, <- Nat.negb_even. simpl. rewrite IH.
    by destruct (Nat.even n). }
  split; [exact Hn|]. split; [|split].
  - rewrite Hn, <- Nat.negb_even. by destruct (Nat.even n).
  - simpl. by rewrite Hn.
  - intros t. unfold toggleTheme. destruct (String.eqb t "light"); auto.
Qed.

(** ** Reveal on scroll *)

#[local] Set Warnings "-clear-no-such-hyp".

Lemma classes_add (node node' : nat) (c : string) (s : RevealState) :
  classes (classList_add node c s) node'
  = if decide (node = node') then {[ c ]} ∪ classes s node' else classes s node'.
Proof.
  unfold classes, classList_add. simpl. rewrite lookup_insert.
  by destruct (decide (node = node')) as [->|].
Qed.

Lemma reveal_step_grows (s : RevealState) (e : Entry) (node : nat) :
  classes s node ⊆ classes (reveal_step s e) node
  ∧ classes (reveal_step s e) node ⊆ classes s node ∪ {[ "visible" ]}
  ∧ observed (reveal_step s e) ⊆ observed s.
Proof.
  unfold reveal_step. destruct (isIntersecting e); [|set_solver].
  change (classes (unobserve (target e) (classList_add (target e) "visible" s)) node)
    with (classes (classList_add (target e) "visible" s) node).
  rewrite classes_add. simpl.
  destruct (decide (target e = node)); set_solver.
Qed.

Lemma reveal_callback_grows (entries : list Entry) (s : RevealState) (node : nat) :
  classes s node ⊆ classes (reveal_callback entries s) node
  ∧ classes (reveal_callback entries s) node ⊆ classes s node ∪ {[ "visible" ]}
  ∧ observed (reveal_callback entries s) ⊆ observed s.
Proof.
  unfold reveal_callback.
  revert s. induction entries as [|e entries IH]; intros s; simpl; [set_solver|].
  destruct (IH (reveal_step s e)) as (IH1 & IH2 & IH3).
  destruct (reveal_step_grows s e node) as (H1 & H2 & H3).
  set_solver.
Qed.

Lemma reveal_callback_intersecting (entries : list Entry) (s : RevealState)
    (e : Entry) :
  e ∈ entries → isIntersecting e = true →
  "visible" ∈ classes (reveal_callback entries s) (target e)
  ∧ target e ∉ observed (reveal_callback entries s).
Proof.
  revert s. induction entries as [|e' entries IH]; intros s Hin Hint.
  - by apply elem_of_nil in Hin.
  - apply elem_of_cons in Hin as [-> | Hin]; [|by apply IH].
    change (reveal_callback (e' :: entries) s)
      with (reveal_callback entries (reveal_step s e')).
    destruct (reveal_callback_grows entries (reveal_step s e') (target e'))
      as (Hgrow & _ & Hobs).
    assert ("visible" ∈ classes (reveal_step s e') (target e')
            ∧ target e' ∉ observed (reveal_step s e')) as [Hv Ho].
    { unfold reveal_step. rewrite Hint. split.
      - change (classes (unobserve (target e')
                           (classList_add (target e') "visible" s)) (target e'))
          with (classes (classList_add (target e') "visible" s) (target e')).
        rewrite classes_add, decide_True by done. set_solver.
      - unfold unobserve. simpl. set_solver. }
    set_solver.
Qed.

(** X14: the callback of the observer reveals each intersecting target,
    once: whatever the batch of entries, every target that intersects ends
    with the class [visible] and is no longer observed.  The callback only
    ever adds the class [visible]: no class is removed from any node, and no
    node is newly observed. *)
Theorem reveal_callback_reveals (entries : list Entry) (s : RevealState) :
  (∀ e, e ∈ entries → isIntersecting e = true →
     "visible" ∈ classes (reveal_callback entries s) (target e)
     ∧ target e ∉ observed (reveal_callback entries s))
  ∧ (∀ node,
       classes s node ⊆ classes (reveal_callback entries s) node
       ∧ classes (reveal_callback entries s) node
         ⊆ classes s node ∪ {[ "visible" ]})
  ∧ observed (reveal_callback entries s) ⊆ observed s.
Proof.
  split; [|split].
  - intros e. apply reveal_callback_intersecting.
  - intros node. destruct (reveal_callback_grows entries s node) as (H1 & H2 & _).
    by split.
  - by destruct (reveal_callback_grows entries s 0) as (_ & _ & H3).
Qed.

(** X15: a node that no intersecting entry of the batch targets is left
    as it was by the callback: same classes, observed as before. *)
Theorem reveal_callback_others (entries : list Entry) (s : RevealState)
    (node : nat) :
  (∀ e, e ∈ entries → isIntersecting e = true → target e ≠ node) →
  classes (reveal_callback entries s) node = classes s node
  ∧ (node ∈ observed (reveal_callback entries s) ↔ node ∈ observed s).
Proof.
  unfold reveal_callback.
  revert s. induction entries as [|e entries IH]; intros s Hothers; simpl; [done|].
  destruct (IH (reveal_step s e)) as [IHc IHo].
  { intros e' Hin. apply Hothers. by right. }
  rewrite IHc, IHo. unfold reveal_step.
  destruct (isIntersecting e) eqn:Hint; [|done].
  assert (target e ≠ node) as Hne by (apply Hothers; [by left | done]).
  split.
  - change (classes (unobserve (target e) (classList_add (target e) "visible" s)) node)
      with (classes (classList_add (target e) "visible" s) node).
    by rewrite classes_add, decide_False.
  - unfold unobserve. simpl. set_solver.
Qed.

(** X16: the effect of the hook.  Without a node it does nothing.  When
    reduced motion is preferred the node gets the class [visible] at once
    and nothing is observed.  Otherwise the node is observed, keeps its
    classes, and the first batch of entries in which it intersects gives it
    the class [visible] and ends its observation. *)
Theorem useReveal_lifecycle (node : nat) (s : RevealState) :
  useReveal_effect None true s = s
  ∧ useReveal_effect None false s = s
  ∧ ("visible" ∈ classes (useReveal_effect (Some node) true s) node
     ∧ observed (useReveal_effect (Some node) true s) = observed s)
  ∧ (node ∈ observed (useReveal_effect (Some node) false s)
     ∧ classes (useReveal_effect (Some node) false s) node = classes s node
     ∧ ∀ entries e, e ∈ entries → target e = node → isIntersecting e = true →
         "visible" ∈ classes (reveal_callback entries
                                 (useReveal_effect (Some node) false s)) node
         ∧ node ∉ observed (reveal_callback entries
                              (useReveal_effect (Some node) false s))).
Proof.
  do 2 (split; [done|]). split; [|split; [|split; [done|]]].
  - simpl. split; [|done]. rewrite classes_add, decide_True by done.
    set_solver.
  - simpl. set_solver.
  - intros entries e Hin <- Hint. by apply reveal_callback_intersecting.
Qed.

End Properties.

(** * Sample runs of the properties *)

#[local] Existing Instance Z_number.

(** Over a stored ["old"], setting ["abc"] and reading it back. *)
Lemma setToken_getToken_roundtrip_witness :
  localStorage (browser (stored "old")) = Some (stored "old")
  ∧ ∃ w', setToken (JStr "abc") (browser (stored "old")) = (Return (), w')
        ∧ getToken w' = (Return (Some "abc"), w')
        ∧ localStorage w' = Some (<[TOKEN_KEY := "abc"]> (stored "old")).
Proof.
  split; [reflexivity|].
  destruct (setToken_getToken_roundtrip "abc" (browser (stored "old"))
              (stored "old") eq_refl) as [Hfits _].
  destruct (Hfits eq_refl) as (w' & Hset & Hget & Hstore & _).
  by exists w'.
Defined.

(** C7, as stated, fails: in a store with room for 13 characters that
    holds ["old"] under [auth_token], setting the longer ["abcd"] throws a
    QuotaExceededError, and [getToken] still returns ["old"]; in a store
    that takes nothing, no credential can be set at all. *)
Lemma setToken_quota_counterexample :
  (getToken (limited_browser 13 (stored "old"))
   = (Return (Some "old"), limited_browser 13 (stored "old"))
   ∧ setToken (JStr "abcd") (limited_browser 13 (stored "old"))
     = (Throw (NativeError "QuotaExceededError"),
        limited_browser 13 (stored "old"))
   ∧ (getToken (setToken (JStr "abcd") (limited_browser 13 (stored "old"))).2).1
     = Return (Some "old"))
  ∧ (setToken (JStr "abc") (limited_browser 0 ∅)
     = (Throw (NativeError "QuotaExceededError"), limited_browser 0 ∅)
     ∧ (getToken (setToken (JStr "abc") (limited_browser 0 ∅)).2).1
       = Return None).
Proof. repeat split; reflexivity. Qed.

(** Clearing a stored ["abc"]. *)
Lemma clearToken_absent_idempotent_witness :
  localStorage (browser (stored "abc")) = Some (stored "abc")
  ∧ ∃ w', clearToken (browser (stored "abc")) = (Return (), w')
        ∧ getToken w' = (Return None, w')
        ∧ clearToken w' = (Return (), w').
Proof.
  split; [reflexivity|].
  apply (clearToken_absent_idempotent (browser (stored "abc")) (stored "abc")).
  reflexivity.
Defined.

(** C9, as stated, fails: without localStorage the three operations throw,
    where the claim has them behave as if no token were stored: a
    ReferenceError where there is no such global, a SecurityError where
    access to the store is denied.  And with localStorage there,
    [setToken] still has a failure mode: the store may be full. *)
Lemma token_store_unavailable_counterexample :
  (localStorage no_storage = None
   ∧ getToken no_storage = (Throw (NativeError "ReferenceError"), no_storage)
   ∧ (getToken no_storage).1 ≠ Return None
   ∧ setToken (JStr "abc") no_storage
     = (Throw (NativeError "ReferenceError"), no_storage)
   ∧ clearToken no_storage = (Throw (NativeError "ReferenceError"), no_storage))
  ∧ (localStorage blocked_storage = None
     ∧ getToken blocked_storage
       = (Throw (NativeError "SecurityError"), blocked_storage)
     ∧ setToken (JStr "abc") blocked_storage
       = (Throw (NativeError "SecurityError"), blocked_storage)
     ∧ clearToken blocked_storage
       = (Throw (NativeError "SecurityError"), blocked_storage))
  ∧ (localStorage (limited_browser 0 ∅) = Some ∅
     ∧ setToken (JStr "abc") (limited_browser 0 ∅)
       = (Throw (NativeError "QuotaExceededError"), limited_browser 0 ∅)).
Proof. repeat split; try reflexivity. discriminate. Qed.



(** A 401 with a JSON message: the error carries message, status, payload. *)
Lemma apiRequest_failure_witness :
  localStorage (browser ∅) = Some ∅
  ∧ ok declined = false
  ∧ (apiRequest (server declined) "/contact" no_options (browser ∅)).1
    = Throw (ApiError "Bad credentials" 401
               (JObj [("message", JStr "Bad credentials")])).
Proof.
  do 2 (split; [reflexivity|]).
  destruct (apiRequest_failure (server declined) "/contact" no_options
              (browser ∅) ∅ declined eq_refl)
    as (_ & Hdata & _); [reflexivity | reflexivity |].
  destruct (Hdata (JObj [("message", JStr "Bad credentials")]) eq_refl)
    as [Hmessage _].
  apply (Hmessage "Bad credentials"); [reflexivity | discriminate].
Defined.

(** C1, as stated, fails three times.  A 502 whose body is not the JSON
    its content type announces makes [apiRequest] throw the parse error,
    which carries neither status nor payload; a payload whose [message] is
    the empty string gets the generic message, not its own; and a payload
    whose [message] is an object with a [toString] property of its own
    makes [apiRequest] throw a TypeError, without status or payload. *)
Lemma apiRequest_failure_counterexample :
  (ok bad_gateway = false
   ∧ (apiRequest (server bad_gateway) "/contact" no_options (browser ∅)).1
     = Throw (NativeError "SyntaxError"))
  ∧ (ok declined_blank = false
     ∧ get_prop (JObj [("message", JStr "")]) "message" = JStr ""
     ∧ (apiRequest (server declined_blank) "/contact" no_options (browser ∅)).1
       = Throw (ApiError "Request failed 400" 400 (JObj [("message", JStr "")])))
  ∧ (ok declined_object = false
     ∧ (apiRequest (server declined_object) "/contact" no_options (browser ∅)).1
       = Throw (NativeError "TypeError")).
Proof. repeat split; reflexivity. Qed.

(** The backend grants the token ["abc"]: [login] stores it. *)
Lemma login_success_witness :
  (∃ data w1,
     apiRequest (server granted) "/auth/login"
       (login_options (server granted) "ada@example.org" "secret") (browser ∅)
     = (Return data, w1))
  ∧ ∃ w2, login (server granted) "ada@example.org" "secret" (browser ∅)
          = (Return true, w2)
        ∧ getToken w2 = (Return (Some "abc"), w2).
Proof.
  assert (∃ w1, apiRequest (server granted) "/auth/login"
                  (login_options (server granted) "ada@example.org" "secret")
                  (browser ∅)
                = (Return (JObj [("token", JStr "abc")]), w1)) as [w1 Hreq]
    by (eexists; reflexivity).
  split; [by eauto|].
  destruct (login_success _ _ _ _ _ _ Hreq) as [Htoken _].
  destruct (Htoken "abc") as (items & Hitems & Hfits & _);
    [reflexivity | discriminate |].
  injection Hitems as <-.
  destruct (Hfits eq_refl) as (w2 & Hlogin & _ & Hget).
  by exists w2.
Defined.

(** C4, as stated, fails: the backend grants the token ["abc"], but the
    store takes nothing; [login] does not return true, it throws the
    QuotaExceededError, and [getToken] afterwards returns [null]. *)
Lemma login_quota_counterexample :
  (apiRequest (server granted) "/auth/login"
     (login_options (server granted) "ada@example.org" "secret")
     (limited_browser 0 ∅)).1
  = Return (JObj [("token", JStr "abc")])
  ∧ (login (server granted) "ada@example.org" "secret" (limited_browser 0 ∅)).1
    = Throw (NativeError "QuotaExceededError")
  ∧ (getToken (login (server granted) "ada@example.org" "secret"
                 (limited_browser 0 ∅)).2).1
    = Return None.
Proof. repeat split; reflexivity. Qed.



(** The guard of /admin with ["abc"] stored, and with nothing stored. *)
Lemma RequireAuth_guard_witness :
  localStorage (browser (stored "abc")) = Some (stored "abc")
  ∧ RequireAuth AdminPage admin_location (browser (stored "abc"))
    = (Return (Children AdminPage), browser (stored "abc"))
  ∧ RequireAuth AdminPage admin_location (browser ∅)
    = (Return (Navigate "/login" true (State (Some admin_location))), browser ∅).
Proof.
  split; [reflexivity|]. split.
  - destruct (RequireAuth_guard AdminPage admin_location
                (browser (stored "abc")) (stored "abc") eq_refl) as [Hallowed _].
    apply (Hallowed "abc"); [reflexivity | discriminate].
  - destruct (RequireAuth_guard AdminPage admin_location (browser ∅) ∅ eq_refl)
      as [_ Hredirect].
    apply Hredirect. left. reflexivity.
Defined.

(** C5, as stated, fails: with the empty string stored, a credential is
    present ([getToken] does not return [null]), yet the guard redirects. *)
Lemma RequireAuth_guard_counterexample :
  setToken (JStr "") (browser ∅) = (Return (), browser (stored ""))
  ∧ getToken (browser (stored "")) = (Return (Some ""), browser (stored ""))
  ∧ RequireAuth AdminPage admin_location (browser (stored ""))
    = (Return (Navigate "/login" true (State (Some admin_location))),
       browser (stored "")).
Proof. repeat split; reflexivity. Qed.

(** Redirected from /admin to /login, then logged in: back to /admin. *)
Lemma login_navigates_to_origin_witness :
  (∃ w', login (server granted) (form_email login_form)
           (form_password login_form) (browser ∅) = (Return true, w'))
  ∧ RequireAuth AdminPage admin_location (browser ∅)
    = (Return (Navigate "/login" true (State (Some admin_location))), browser ∅)
  ∧ replaced (onSubmit (server granted)
                (navigated "/login" (State (Some admin_location)))
                login_form (browser ∅)).2
    = ["/admin"].
Proof.
  assert (∃ w', login (server granted) (form_email login_form)
                  (form_password login_form) (browser ∅) = (Return true, w'))
    as Hlogin by (eexists; reflexivity).
  split; [exact Hlogin|]. split; [reflexivity|].
  destruct Hlogin as [w' Hlogin].
  destruct (login_navigates_to_origin (server granted)
              (navigated "/login" (State (Some admin_location)))
              login_form (browser ∅) w' Hlogin) as (_ & _ & Hscenario).
  apply (Hscenario Page AdminPage admin_location (browser ∅) (browser ∅)
           "/login" true (State (Some admin_location)));
    reflexivity.
Defined.

(** A 200 with a JSON body: the payload is returned. *)
Lemma apiRequest_completion_witness :
  localStorage (browser ∅) = Some ∅
  ∧ ok granted = true
  ∧ (apiRequest (server granted) "/contact" no_options (browser ∅)).1
    = Return (JObj [("token", JStr "abc")]).
Proof.
  do 2 (split; [reflexivity|]).
  destruct (apiRequest_completion (server granted) "/contact" no_options
              (browser ∅) ∅ eq_refl) as [_ Hresponse].
  destruct (Hresponse granted) as [Hjson _]; [reflexivity | reflexivity |].
  apply (Hjson "application/json"); reflexivity.
Defined.

(** Another entry of localStorage survives [setToken] and [clearToken]. *)
Lemma token_utilities_frame_witness :
  "lang" ≠ TOKEN_KEY
  ∧ item (setToken (JStr "xyz") (browser (<["lang" := "en"]> (stored "abc")))).2
      "lang" = Some "en"
  ∧ item (clearToken (browser (<["lang" := "en"]> (stored "abc")))).2 "lang"
    = Some "en".
Proof.
  assert ("lang" ≠ TOKEN_KEY) as Hkey by discriminate.
  split; [exact Hkey|].
  destruct (token_utilities_frame (browser (<["lang" := "en"]> (stored "abc")))
              (JStr "xyz") "lang" Hkey) as (Hset & Hclear & _).
  rewrite Hset, Hclear. split; reflexivity.
Defined.

(** Logging out of a session with ["abc"] stored. *)
Lemma logout_ends_session_witness :
  localStorage (browser (stored "abc")) = Some (stored "abc")
  ∧ ∃ w', logout (browser (stored "abc")) = (Return (), w')
        ∧ item w' TOKEN_KEY = None
        ∧ RequireAuth AdminPage admin_location w'
          = (Return (Navigate "/login" true (State (Some admin_location))), w').
Proof.
  split; [reflexivity|].
  destruct (logout_ends_session (browser (stored "abc")) (stored "abc") eq_refl)
    as (w' & Hlogout & Hitem & _ & _ & Hguard & _).
  exists w'. split; [exact Hlogout|]. split; [exact Hitem|]. apply Hguard.
Defined.

(** The token [[]] is truthy and reads as the empty string: [login]
    returns true, and the guard redirects. *)
Lemma login_stores_token_text_witness :
  truthy (JArr []) = true
  ∧ ToString (JArr []) = Return ""
  ∧ ∃ w2, login (server granted_array) "ada@example.org" "secret" (browser ∅)
          = (Return true, w2)
        ∧ item w2 TOKEN_KEY = Some ""
        ∧ RequireAuth AdminPage admin_location w2
          = (Return (Navigate "/login" true (State (Some admin_location))), w2).
Proof.
  do 2 (split; [reflexivity|]).
  assert (∃ w1, apiRequest (server granted_array) "/auth/login"
                  (login_options (server granted_array) "ada@example.org" "secret")
                  (browser ∅)
                = (Return (JObj [("token", JArr [])]), w1)) as [w1 Hreq]
    by (eexists; reflexivity).
  destruct (login_stores_token_text _ _ _ _ _ _ Hreq eq_refl) as [Hstored _].
  destruct (Hstored "" eq_refl) as (items & Hitems & Hfits & _).
  injection Hitems as <-.
  destruct (Hfits eq_refl) as (w2 & Hlogin & Hitem & _ & Hguard).
  exists w2. split; [exact Hlogin|]. split; [exact Hitem|].
  apply (Hguard Page AdminPage admin_location).
Defined.

(** A 200 sent as text/plain: [login] returns false. *)
Lemma login_needs_json_witness :
  localStorage (browser ∅) = Some ∅
  ∧ Headers_get (response_headers plain_text) "content-type" = Some "text/plain"
  ∧ (login (server plain_text) "ada@example.org" "secret" (browser ∅)).1
    = Return false.
Proof.
  do 2 (split; [reflexivity|]).
  assert (∀ ct, Headers_get (response_headers plain_text) "content-type" = Some ct →
                includes ct "application/json" = false) as Hct.
  { intros ct Hget. injection Hget as <-. reflexivity. }
  destruct (login_needs_json (server plain_text) "ada@example.org" "secret"
              (browser ∅) ∅ plain_text eq_refl) as (_ & _ & Hfalse);
    [reflexivity | exact Hct |].
  apply (Hfalse eq_refl "token=abc"). reflexivity.
Defined.

(** After a login that stored ["abc"], the guard lets through and a
    request carries [Bearer abc]. *)
Lemma login_starts_session_witness :
  ∃ w2, login (server granted) "ada@example.org" "secret" (browser ∅)
        = (Return true, w2)
      ∧ RequireAuth AdminPage admin_location w2 = (Return (Children AdminPage), w2)
      ∧ ∃ req,
          fetched (apiRequest (server accepted) "/admin/notice" no_options w2).2
          = (fetched w2 ++ [req])%list
          ∧ Headers_get (request_headers req) "Authorization" = Some "Bearer abc".
Proof.
  assert (∃ w2, login (server granted) "ada@example.org" "secret" (browser ∅)
                = (Return true, w2)) as [w2 Hlogin] by (eexists; reflexivity).
  exists w2. split; [exact Hlogin|].
  destruct (login_starts_session _ _ _ _ _ Hlogin) as (s & Hitem & Hguard & Hbearer).
  assert (s = "abc") as ->.
  { injection Hlogin as <-. by injection Hitem as <-. }
  split; [apply Hguard|].
  destruct (Hbearer ltac:(discriminate) (server accepted) "/admin/notice" no_options)
    as (_ & Hplain & _).
  apply Hplain; reflexivity.
Defined.

(** Base URL unset, the form filled in, the server answers 200 with [{}]:
    the status is "success". *)
Lemma ContactSection_success_iff_witness :
  localStorage (browser ∅) = Some ∅
  ∧ ∃ st', (ContactSection_onSubmit (server accepted) typed_contact (browser ∅)).1
           = Return st'
         ∧ contact_status st' = "success".
Proof.
  split; [reflexivity|].
  destruct (ContactSection_success_iff (server accepted) typed_contact
              (browser ∅) ∅ eq_refl) as (_ & _ & Hresponse).
  destruct (Hresponse accepted) as (st' & Hrun & Hiff); [reflexivity|].
  exists st'. split; [exact Hrun|]. apply Hiff.
  split; [reflexivity|]. exists (JObj []). reflexivity.
Defined.

(** Node 1 scrolls into view; node 2, which does not, is left as it was. *)
Lemma reveal_callback_others_witness :
  (∀ e, e ∈ scrolled → isIntersecting e = true → target e ≠ 2)
  ∧ classes (reveal_callback scrolled observing) 2 = classes observing 2
  ∧ (2 ∈ observed (reveal_callback scrolled observing) ↔ 2 ∈ observed observing).
Proof.
  assert (∀ e, e ∈ scrolled → isIntersecting e = true → target e ≠ 2) as Hothers.
  { intros e Hin Hint. unfold scrolled in Hin.
    apply elem_of_cons in Hin as [-> | Hin]; [discriminate|].
    apply elem_of_cons in Hin as [-> | Hin]; [discriminate|].
    by apply elem_of_nil in Hin. }
  split; [exact Hothers|].
  apply (reveal_callback_others scrolled observing 2 Hothers).
Defined.
